(** * The arte.tv extractors of youtube-dl (youtube_dl/extractor/arte.py)

    A shallow embedding of the four extractors [ArteTVIE], [ArteTVEmbedIE],
    [ArteTVPlaylistIE] and [ArteTVCategoryIE]: their URL patterns, their
    [suitable] predicates and their [_real_extract] methods.

    Conventions of the embedding.
    - A Python [str] is a [string]; a character [ascii] stands for the code
      point it numbers (U+0000..U+00FF), and the classes [\d], [\w], [\s]
      are the ones Python 3 gives on that range.
    - A decoded JSON document is a [json] tree; a Python [dict] built by
      [json.loads] is an association list read by its first binding.
    - A method that may raise returns a [result]: [Ok v] or [Err e] with the
      class of the exception.
    - Functions of the Python library and of [youtube_dl.utils] that the
      extractors call, and whose text is not part of arte.py, are
      parameters of the sections that use them. *)

From Stdlib Require Import Strings.String Strings.Ascii.
From Stdlib Require Import Lists.List.
From Stdlib Require Import ZArith NArith Bool Arith Lia.
Import ListNotations.

Open Scope string_scope.
Open Scope bool_scope.

Set Warnings "-register-all".

(** ** Exceptions and results *)

Inductive py_error : Type :=
| KeyError
| IndexError
| TypeError
| ValueError
| AttributeError
| AssertionError
| ExtractorError.

Inductive result (A : Type) : Type :=
| Ok : A -> result A
| Err : py_error -> result A.

Arguments Ok {A} _.
Arguments Err {A} _.

Definition bind {A B : Type} (r : result A) (f : A -> result B) : result B :=
  match r with
  | Ok a => f a
  | Err e => Err e
  end.

Notation "x <- e ;; k" := (bind e (fun x => k))
  (at level 61, e at next level, right associativity).

(** The errors a failed subscript or iteration raises: [d[k]] on a missing
    key, [l[i]] out of range, and a subscript or a loop on a value that
    supports neither.  A document whose required structure is missing makes
    the extractor raise one of these; this is what the design calls a
    [MalformedResponse]. *)
Definition lookup_error (e : py_error) : bool :=
  match e with
  | KeyError | IndexError | TypeError => true
  | _ => false
  end.

Definition MalformedResponse (e : py_error) : Prop := lookup_error e = true.

(** ** Characters *)

Definition code (c : ascii) : N := N_of_ascii c.

Definition in_range (lo hi : N) (c : ascii) : bool :=
  (lo <=? code c)%N && (code c <=? hi)%N.

(** [\d] *)
Definition is_digit (c : ascii) : bool := in_range 48 57 c.

Arguments is_digit : simpl never.

(** [\w]: [str.isalnum] or an underscore. *)
Definition is_word (c : ascii) : bool :=
  in_range 48 57 c || in_range 65 90 c || in_range 97 122 c
  || (code c =? 95)%N
  || (code c =? 170)%N || in_range 178 179 c || (code c =? 181)%N
  || in_range 185 186 c || in_range 188 190 c
  || in_range 192 214 c || in_range 216 246 c || in_range 248 255 c.

(** [\s], also the characters [str.strip] removes. *)
Definition is_space (c : ascii) : bool :=
  in_range 9 13 c || in_range 28 32 c
  || (code c =? 133)%N || (code c =? 160)%N.

Definition newline : ascii := ascii_of_N 10.

(** ** Strings *)

(** [s.startswith(p)], returning what follows [p]. *)
Fixpoint strip_prefix (p s : string) : option string :=
  match p with
  | EmptyString => Some s
  | String a p' =>
      match s with
      | EmptyString => None
      | String b s' => if Ascii.eqb a b then strip_prefix p' s' else None
      end
  end.

Fixpoint last_char (s : string) (d : option ascii) : option ascii :=
  match s with
  | EmptyString => d
  | String c s' => last_char s' (Some c)
  end.

Fixpoint take (n : nat) (s : string) : string :=
  match n, s with
  | S n', String c s' => String c (take n' s')
  | _, _ => EmptyString
  end.

(** The part of [s] in front of its suffix [rest]. *)
Definition consumed (s rest : string) : string :=
  take (String.length s - String.length rest) s.

(** ** Regular expressions

    The fragment of Python's [re] syntax the patterns of arte.py use, and a
    backtracking matcher that explores alternatives in the order of [re]:
    the left branch of [|] first, a greedy repetition longest first, a lazy
    one shortest first. *)

Inductive regex : Type :=
| Eps : regex
| Char : ascii -> regex                   (* a literal character *)
| Chr : (ascii -> bool) -> regex          (* one character of a class *)
| Seq : regex -> regex -> regex
| Alt : regex -> regex -> regex
| Star : bool -> regex -> regex           (* [true]: greedy *)
| Group : string -> regex -> regex        (* [(?P<name>...)] *)
| Backref : string -> regex               (* [(?P=name)] *)
| WordB : regex                           (* [\b] *)
| Dollar : regex.                         (* [$] without MULTILINE *)

Definition captures := list (string * string).

Fixpoint group (caps : captures) (name : string) : option string :=
  match caps with
  | [] => None
  | (n, v) :: caps' => if String.eqb n name then Some v else group caps' name
  end.

Definition word_before (prev : option ascii) : bool :=
  match prev with
  | Some c => is_word c
  | None => false
  end.

Definition word_after (s : string) : bool :=
  match s with
  | String c _ => is_word c
  | EmptyString => false
  end.

Definition at_end (s : string) : bool :=
  match s with
  | EmptyString => true
  | String c EmptyString => Ascii.eqb c newline
  | _ => false
  end.

Definition orelse {A : Type} (x y : option A) : option A :=
  match x with
  | Some a => Some a
  | None => y
  end.

Section Matcher.

Variable R : Type.

(** What is left to match: it receives the character in front of the
    current position, the rest of the subject and the groups so far. *)
Definition cont := option ascii -> string -> captures -> option R.

Fixpoint mt (r : regex) (prev : option ascii) (s : string)
         (caps : captures) (k : cont) {struct r} : option R :=
  match r with
  | Eps => k prev s caps
  | Char a =>
      match s with
      | String c s' => if Ascii.eqb a c then k (Some c) s' caps else None
      | EmptyString => None
      end
  | Chr f =>
      match s with
      | String c s' => if f c then k (Some c) s' caps else None
      | EmptyString => None
      end
  | Seq a b => mt a prev s caps (fun p' s' c' => mt b p' s' c' k)
  | Alt a b => orelse (mt a prev s caps k) (mt b prev s caps k)
  | Star greedy a =>
      (fix loop (fuel : nat) (prev : option ascii) (s : string)
           (caps : captures) {struct fuel} : option R :=
         match fuel with
         | O => k prev s caps
         | S fuel' =>
             let again :=
               mt a prev s caps
                  (fun p' s' c' =>
                     if Nat.ltb (String.length s') (String.length s)
                     then loop fuel' p' s' c' else None) in
             if greedy then orelse again (k prev s caps)
             else orelse (k prev s caps) again
         end) (String.length s) prev s caps
  | Group name a =>
      mt a prev s caps
         (fun p' s' c' => k p' s' ((name, consumed s s') :: c'))
  | Backref name =>
      match group caps name with
      | Some v =>
          match strip_prefix v s with
          | Some s' => k (last_char v prev) s' caps
          | None => None
          end
      | None => None
      end
  | WordB =>
      if xorb (word_before prev) (word_after s) then k prev s caps else None
  | Dollar => if at_end s then k prev s caps else None
  end.

End Matcher.

Arguments mt {R} r prev s caps k.

(** A match object: the groups and the rest of the subject after the
    match. *)
Definition match_obj : Type := captures * string.

(** [re.match(r, s)]: anchored at the start of [s], not at its end. *)
Definition re_match (r : regex) (s : string) : option match_obj :=
  mt r None s [] (fun _ rest caps => Some (caps, rest)).

(** [re.fullmatch(r, s)] *)
Definition re_fullmatch (r : regex) (s : string) : option match_obj :=
  mt r None s []
     (fun _ rest caps =>
        match rest with
        | EmptyString => Some (caps, rest)
        | _ => None
        end).

(** Derived forms. *)
Fixpoint Lit (p : string) : regex :=
  match p with
  | EmptyString => Eps
  | String c p' => Seq (Char c) (Lit p')
  end.

Definition Opt (r : regex) : regex := Alt r Eps.            (* [r?] *)
Definition Plus (r : regex) : regex := Seq r (Star true r). (* [r+] *)
Definition LazyPlus (r : regex) : regex := Seq r (Star false r). (* [r+?] *)

Fixpoint Rep (n : nat) (r : regex) : regex :=               (* [r{n}] *)
  match n with
  | O => Eps
  | S n' => Seq r (Rep n' r)
  end.

Fixpoint Seqs (rs : list regex) : regex :=
  match rs with
  | [] => Eps
  | r :: rs' => Seq r (Seqs rs')
  end.

Definition Digit : regex := Chr is_digit.                    (* [\d] *)
Definition Space : regex := Chr is_space.                    (* [\s] *)
Definition Dot : regex := Chr (fun c => negb (Ascii.eqb c newline)).
Definition OneOf (cs : string) : regex :=                    (* [[abc]] *)
  Chr (fun c => existsb (Ascii.eqb c) (list_ascii_of_string cs)).

(** ** URL patterns *)

(** [ArteTVBaseIE._ARTE_LANGUAGES = 'fr|de|en|es|it|pl'] *)
Definition _ARTE_LANGUAGES : regex :=
  Alt (Lit "fr") (Alt (Lit "de") (Alt (Lit "en")
    (Alt (Lit "es") (Alt (Lit "it") (Lit "pl"))))).

(** [ArteTVBaseIE._API_BASE] *)
Definition _API_BASE : string := "https://api.arte.tv/api/player/v2".

Module ArteTVIE.

(** [(?x) https?:// (?: (?:www\.)?arte\.tv/(?P<lang>fr|de|en|es|it|pl)/videos
    | api\.arte\.tv/api/player/v\d+/config/(?P<lang_2>fr|de|en|es|it|pl) )
    /(?P<id>\d{6}-\d{3}-[AF])] *)
Definition _VALID_URL : regex :=
  Seqs [ Lit "http"; Opt (Lit "s"); Lit "://";
         Alt (Seqs [ Opt (Lit "www."); Lit "arte.tv/";
                     Group "lang" _ARTE_LANGUAGES; Lit "/videos" ])
             (Seqs [ Lit "api.arte.tv/api/player/v"; Plus Digit;
                     Lit "/config/"; Group "lang_2" _ARTE_LANGUAGES ]);
         Lit "/";
         Group "id" (Seqs [ Rep 6 Digit; Lit "-"; Rep 3 Digit; Lit "-";
                            OneOf "AF" ]) ].

End ArteTVIE.

Module ArteTVEmbedIE.

(** [https?://(?:www\.)?arte\.tv/player/v\d+/index\.php\?.*?\bjson_url=.+] *)
Definition _VALID_URL : regex :=
  Seqs [ Lit "http"; Opt (Lit "s"); Lit "://"; Opt (Lit "www.");
         Lit "arte.tv/player/v"; Plus Digit; Lit "/index.php?";
         Star false Dot; WordB; Lit "json_url="; Plus Dot ].

End ArteTVEmbedIE.

Module ArteTVPlaylistIE.

(** [https?://(?:www\.)?arte\.tv/(?P<lang>fr|de|en|es|it|pl)/videos/(?P<id>RC-\d{6})] *)
Definition _VALID_URL : regex :=
  Seqs [ Lit "http"; Opt (Lit "s"); Lit "://"; Opt (Lit "www.");
         Lit "arte.tv/"; Group "lang" _ARTE_LANGUAGES; Lit "/videos/";
         Group "id" (Seq (Lit "RC-") (Rep 6 Digit)) ].

End ArteTVPlaylistIE.

(** [[\w-]] *)
Definition WordDash : regex := Chr (fun c => is_word c || Ascii.eqb c "-").

Module ArteTVCategoryIE.

(** [https?://(?:www\.)?arte\.tv/(?P<lang>fr|de|en|es|it|pl)/videos/
     (?P<id> [\w-]+ (?:/[\w-]+)* ) /?\s*$], written here with spaces
    between the parts of the [id] group. *)
Definition _VALID_URL : regex :=
  Seqs [ Lit "http"; Opt (Lit "s"); Lit "://"; Opt (Lit "www.");
         Lit "arte.tv/"; Group "lang" _ARTE_LANGUAGES; Lit "/videos/";
         Group "id" (Seq (Plus WordDash)
                         (Star true (Seq (Lit "/") (Plus WordDash))));
         Opt (Lit "/"); Star true Space; Dollar ].

End ArteTVCategoryIE.

(** ** The [suitable] predicates *)

(** Modelled from the spec: [InfoExtractor.suitable] of extractor/common.py,
    which [ArteTVIE], [ArteTVEmbedIE] and [ArteTVPlaylistIE] inherit: "a
    pure structural match against each strategy's fixed URL pattern", that
    is [re.match(cls._VALID_URL, url) is not None]. *)
Definition suitable (valid_url : regex) (url : string) : bool :=
  match re_match valid_url url with
  | Some _ => true
  | None => false
  end.

Definition Video_suitable : string -> bool := suitable ArteTVIE._VALID_URL.
Definition Embed_suitable : string -> bool := suitable ArteTVEmbedIE._VALID_URL.
Definition Playlist_suitable : string -> bool :=
  suitable ArteTVPlaylistIE._VALID_URL.

(** [ArteTVCategoryIE.suitable]:
    [not any(ie.suitable(url) for ie in (ArteTVIE, ArteTVPlaylistIE, ))
     and super(ArteTVCategoryIE, cls).suitable(url)] *)
Definition Category_suitable (url : string) : bool :=
  negb (existsb (fun ie_suitable => ie_suitable url)
                [Video_suitable; Playlist_suitable])
  && suitable ArteTVCategoryIE._VALID_URL url.


(** ** Literal prefixes of a pattern

    [lead r] lists the literal strings a match of [r] can start with, each
    with what is known of the subject after it: [Done], the match of [r]
    is that string; [Next f], the next character is in the class [f];
    [Open], nothing. *)

Inductive tail : Type :=
| Done : tail
| Next : (ascii -> bool) -> tail
| Open : tail.

Fixpoint lead (r : regex) : list (string * tail) :=
  match r with
  | Eps | WordB | Dollar => [(EmptyString, Done)]
  | Char c => [(String c EmptyString, Done)]
  | Chr f => [(EmptyString, Next f)]
  | Star _ _ | Backref _ => [(EmptyString, Open)]
  | Seq a b =>
      flat_map
        (fun pa : string * tail =>
           match snd pa with
           | Done => map (fun pb : string * tail => (fst pa ++ fst pb, snd pb))
                         (lead b)
           | _ => [pa]
           end)
        (lead a)
  | Alt a b => lead a ++ lead b
  | Group _ a => lead a
  end.

(** Whether a subject that goes on with [rest] agrees with [t]. *)
Definition fits (t : tail) (rest : string) : bool :=
  match t, rest with
  | Next f, String c _ => f c
  | _, _ => true
  end.

(** Whether one subject can start in both ways. *)
Definition compatible (x y : string * tail) : bool :=
  match strip_prefix (fst x) (fst y) with
  | Some r => fits (snd x) r
  | None =>
      match strip_prefix (fst y) (fst x) with
      | Some r => fits (snd y) r
      | None => false
      end
  end.

Definition apart (xs ys : list (string * tail)) : bool :=
  forallb (fun x => forallb (fun y => negb (compatible x y)) ys) xs.

(** What an entry [x] of [lead r] says of a subject [s] that [r] matches
    with the continuation [k] and the outcome [v]. *)
Definition described {R : Type} (s : string) (k : cont R) (v : R)
           (x : string * tail) : Prop :=
  exists s', s = fst x ++ s' /\
    match snd x with
    | Done => exists prev' caps', k prev' s' caps' = Some v
    | Next f => exists c s'', s' = String c s'' /\ f c = true
    | Open => True
    end.

(** [re.finditer(r, s)]: the matches found scanning [s] from left to
    right, each search starting where the previous match ended.  [prev] is
    the character in front of the current position and [skip] the number of
    characters still covered by the last match.  (After an empty match the
    scan moves on by one character; the pattern searched for in arte.py
    matches no empty string.) *)
Fixpoint finditer_from (r : regex) (prev : option ascii) (s : string)
         (skip : nat) {struct s} : list match_obj :=
  match s with
  | EmptyString =>
      match skip with
      | O =>
          match mt r prev s [] (fun _ rest caps => Some (caps, rest)) with
          | Some m => [m]
          | None => []
          end
      | S _ => []
      end
  | String c s' =>
      match skip with
      | S n => finditer_from r (Some c) s' n
      | O =>
          match mt r prev s [] (fun _ rest caps => Some (caps, rest)) with
          | Some (caps, rest) =>
              (caps, rest)
                :: finditer_from r (Some c) s'
                     (String.length s - String.length rest - 1)
          | None => finditer_from r (Some c) s' 0
          end
      end
  end.

Definition finditer (r : regex) (s : string) : list match_obj :=
  finditer_from r None s 0.

(** ** Python values *)

(** A decoded JSON value; [JNull] is [None].  Numbers are integers. *)
Inductive json : Type :=
| JNull : json
| JBool : bool -> json
| JNum : Z -> json
| JStr : string -> json
| JArr : list json -> json
| JObj : list (string * json) -> json.

Fixpoint assoc {A : Type} (k : string) (kv : list (string * A)) : option A :=
  match kv with
  | [] => None
  | (k', v) :: kv' => if String.eqb k' k then Some v else assoc k kv'
  end.

(** [j[k]] with a string key [k]. *)
Definition getitem (j : json) (k : string) : result json :=
  match j with
  | JObj kv =>
      match assoc k kv with
      | Some v => Ok v
      | None => Err KeyError
      end
  | _ => Err TypeError
  end.

(** [j[i]] with an integer index [i >= 0]. *)
Definition getindex (j : json) (i : nat) : result json :=
  match j with
  | JArr l =>
      match nth_error l i with
      | Some v => Ok v
      | None => Err IndexError
      end
  | JStr s =>
      match String.get i s with
      | Some c => Ok (JStr (String c EmptyString))
      | None => Err IndexError
      end
  | JObj _ => Err KeyError
  | _ => Err TypeError
  end.

(** [d.get(k)] on a dict: [None] when the key is missing. *)
Definition dict_get (kv : list (string * json)) (k : string) : json :=
  match assoc k kv with
  | Some v => v
  | None => JNull
  end.

(** The elements a [for] loop over [j] visits. *)
Definition py_iter (j : json) : result (list json) :=
  match j with
  | JArr l => Ok l
  | JObj kv => Ok (map (fun p => JStr (fst p)) kv)
  | JStr s =>
      Ok (map (fun c => JStr (String c EmptyString)) (list_ascii_of_string s))
  | _ => Err TypeError
  end.

(** Truth value of a Python object. *)
Definition truthy (j : json) : bool :=
  match j with
  | JNull => false
  | JBool b => b
  | JNum z => negb (z =? 0)%Z
  | JStr s => negb (String.eqb s EmptyString)
  | JArr l => match l with [] => false | _ => true end
  | JObj kv => match kv with [] => false | _ => true end
  end.

(** [a or b] *)
Definition py_or (a b : json) : json := if truthy a then a else b.

(** Truth value of a value that is a [str] or [None], and [a or b] on such
    values. *)
Definition nonempty (o : option string) : bool :=
  match o with
  | Some s => negb (String.eqb s EmptyString)
  | None => false
  end.

Definition or_str (a b : option string) : option string :=
  if nonempty a then a else b.

(** [s.strip()] *)
Fixpoint lstrip (s : string) : string :=
  match s with
  | EmptyString => EmptyString
  | String c s' => if is_space c then lstrip s' else s
  end.

Fixpoint rstrip (s : string) : string :=
  match s with
  | EmptyString => EmptyString
  | String c s' =>
      match rstrip s' with
      | EmptyString => if is_space c then EmptyString else String c EmptyString
      | r => String c r
      end
  end.

Definition strip (s : string) : string := rstrip (lstrip s).

(** The part of [s] in front of its last [sep], when [sep] occurs. *)
Fixpoint before_last (sep : ascii) (s : string) : option string :=
  match s with
  | EmptyString => None
  | String c s' =>
      match before_last sep s' with
      | Some h => Some (String c h)
      | None => if Ascii.eqb c sep then Some EmptyString else None
      end
  end.

(** [s.rsplit(sep, 1)[0]] *)
Definition rsplit1_head (sep : ascii) (s : string) : string :=
  match before_last sep s with
  | Some h => h
  | None => s
  end.

(** The part of [s] in front of its first [sep]: [s.split(sep, 1)[0]]. *)
Fixpoint split1_head (sep : ascii) (s : string) : string :=
  match s with
  | EmptyString => EmptyString
  | String c s' =>
      if Ascii.eqb c sep then EmptyString else String c (split1_head sep s')
  end.

(** [for x in xs: ...] where the body may raise. *)
Fixpoint mapM {A B : Type} (f : A -> result B) (l : list A) : result (list B) :=
  match l with
  | [] => Ok []
  | a :: l' => b <- f a ;; bs <- mapM f l' ;; Ok (b :: bs)
  end.

(** ** Records the extractors return *)

(** A format dict.  arte.py sets ['format_id'], ['format_note'] and ['url'];
    ['quality'] is the key its disabled line
    ['quality': qfunc(f.get('quality'))] would set, read by the sort. *)
Record format : Type := mk_format {
  format_id : Z;
  format_note : string;
  format_url : json;
  quality : option Z
}.

(** A playlist or a list of links: [{'_type': 'playlist', 'entries': ...,
    'id': ..., 'title': ..., 'description': ...}]. *)
Record playlist_info (E : Type) : Type := mk_playlist {
  pl_entries : list E;
  pl_id : string;
  pl_title : json;
  pl_description : json
}.

Arguments mk_playlist {E} _ _ _ _.
Arguments pl_entries {E} _.
Arguments pl_id {E} _.
Arguments pl_title {E} _.
Arguments pl_description {E} _.

(** [{'_type': 'url', 'url': ..., 'ie_key': ..., 'id': ...}] *)
Record url_ref : Type := mk_url_ref {
  ref_url : string;
  ref_ie_key : option string;
  ref_id : option string
}.

(** An entry of [ArteTVPlaylistIE]: a pointer to a video, not a resolved
    one ([_type] is ['url_transparent']). *)
Record playlist_entry : Type := mk_entry {
  entry_url : string;
  entry_id : json;
  entry_title : json;
  entry_alt_title : json;
  entry_thumbnail : option string;
  entry_duration : option Z;
  entry_view_count : option Z;
  entry_ie_key : string
}.

(** ** Helpers of extractor/common.py and utils.py *)

(** Modelled from the spec: [utils.qualities], "index of the quality code
    within the fixed order; codes outside this set get a sentinel unranked
    value" (the sentinel is [-1]). *)
Fixpoint index_of (q : string) (ids : list string) (i : Z) : Z :=
  match ids with
  | [] => (-1)%Z
  | x :: ids' => if String.eqb x q then i else index_of q ids' (i + 1)%Z
  end.

Definition qualities (quality_ids : list string) (qid : string) : Z :=
  index_of qid quality_ids 0%Z.

(** The rank the sort reads in a format: its ['quality'], the sentinel
    when there is none. *)
Definition rank (f : format) : Z :=
  match quality f with
  | Some q => q
  | None => (-1)%Z
  end.

Fixpoint insert_by_rank (f : format) (fs : list format) : list format :=
  match fs with
  | [] => [f]
  | g :: fs' =>
      if (rank f <=? rank g)%Z then f :: g :: fs'
      else g :: insert_by_rank f fs'
  end.

(** Modelled from the spec: the order [InfoExtractor._sort_formats] puts
    the formats in, "output ordering: ascending by rank", stable: formats
    of equal rank keep the order they came in. *)
Definition sort_by_rank (fs : list format) : list format :=
  fold_right insert_by_rank [] fs.

(** Modelled from the spec: [InfoExtractor.ie_key], the class name without
    its [IE] suffix. *)
Definition ArteTVIE_ie_key : string := "ArteTV".

(** Modelled from the spec: [InfoExtractor.url_result]. *)
Definition url_result (url : string) (ie : option string)
           (video_id : option string) : url_ref :=
  mk_url_ref url ie video_id.

(** Modelled from the spec: [InfoExtractor.playlist_result]. *)
Definition playlist_result {E : Type} (es : list E) (playlist_id : string)
           (title description : json) : playlist_info E :=
  mk_playlist es playlist_id title description.

(** Modelled from the spec: [InfoExtractor.playlist_from_matches], one
    reference per link, in the order of the links, "no deduplication is
    performed". *)
Definition playlist_from_matches (matches : list string)
           (playlist_id : string) (title : json) : playlist_info url_ref :=
  playlist_result (map (fun m => url_result m None None) matches)
                  playlist_id title JNull.

(** Modelled from the spec: [InfoExtractor._match_id],
    [m = re.match(cls._VALID_URL, url); assert m;
     return compat_str(m.group('id'))]. *)
Definition _match_id (valid_url : regex) (url : string) : result string :=
  match re_match valid_url url with
  | Some (caps, _) =>
      match group caps "id" with
      | Some v => Ok v
      | None => Ok "None"
      end
  | None => Err AssertionError
  end.

(** Modelled from the spec: [utils.strip_or_none] on a [str], "trimmed". *)
Definition strip_or_none (s : string) : option string := Some (strip s).

(** ** [ArteTVIE._real_extract] *)

Record video_record (date : Type) : Type := mk_video {
  video_id : json;
  video_title : json;
  video_description : json;
  upload_date : date;
  thumbnail : json;
  formats : list format
}.

Arguments mk_video {date} _ _ _ _ _ _.
Arguments video_id {date} _.
Arguments video_title {date} _.
Arguments video_description {date} _.
Arguments upload_date {date} _.
Arguments thumbnail {date} _.
Arguments formats {date} _.

(** The format dict the loop body builds for one stream. *)
Definition stream_format (py_str : json -> string) (stream : json)
  : result format :=
  mq <- getitem stream "mainQuality" ;;
  code <- getitem mq "code" ;;
  mq' <- getitem stream "mainQuality" ;;
  label <- getitem mq' "label" ;;
  url <- getitem stream "url" ;;
  Ok (mk_format 0 (py_str code ++ ", " ++ py_str label) url None).

Section Video.

(** A calendar date, and [datetime.fromisoformat(v).date()]. *)
Variable date : Type.
Variable fromisoformat_date : json -> result date.

(** [str(v)], as ['%s' % v] computes it. *)
Variable py_str : json -> string.

(** [self._sort_formats(formats)]: the sorted list, or the error the
    method raises. *)
Variable _sort_formats : list format -> result (list format).

(** [self._download_json(url, video_id)] *)
Variable _download_json : string -> string -> result json.

(** What [_real_extract] does with the fetched document [info]. *)
Definition video_of_info (video_id : string) (info : json)
  : result (video_record date) :=
  data <- getitem info "data" ;;
  attributes <- getitem data "attributes" ;;
  rights <- getitem attributes "rights" ;;
  begin <- getitem rights "begin" ;;
  upload_date <- fromisoformat_date begin ;;
  let qfunc := qualities ["MQ"; "HQ"; "EQ"; "SQ"] in   (* never applied *)
  streams <- getitem attributes "streams" ;;
  streams <- py_iter streams ;;
  formats <- mapM (stream_format py_str) streams ;;
  formats <- _sort_formats formats ;;
  metadata <- getitem attributes "metadata" ;;
  providerId <- getitem metadata "providerId" ;;
  metadata <- getitem attributes "metadata" ;;
  title <- getitem metadata "title" ;;
  metadata <- getitem attributes "metadata" ;;
  description <- getitem metadata "description" ;;
  metadata <- getitem attributes "metadata" ;;
  images <- getitem metadata "images" ;;
  image <- getindex images 0 ;;
  thumbnail <- getitem image "url" ;;
  Ok (mk_video (py_or providerId (JStr video_id)) title description
               upload_date thumbnail formats).

(** The body of [_real_extract] once the URL has given [lang] and
    [video_id]: the resolution of one video. *)
Definition resolve_video (lang video_id : string)
  : result (video_record date) :=
  info <- _download_json
            (_API_BASE ++ "/config/" ++ lang ++ "/" ++ video_id) video_id ;;
  video_of_info video_id info.

Definition ArteTVIE_real_extract (url : string)
  : result (video_record date) :=
  match re_match ArteTVIE._VALID_URL url with
  | None => Err AttributeError          (* [None.group] *)
  | Some (caps, _) =>
      (* a match sets [id] and one of [lang], [lang_2] *)
      match group caps "id",
            or_str (group caps "lang") (group caps "lang_2") with
      | Some video_id, Some lang => resolve_video lang video_id
      | _, _ => Err TypeError
      end
  end.

End Video.

(** ** [ArteTVEmbedIE._real_extract] *)

Section Embed.

(** [compat_urlparse.parse_qs(compat_urlparse.urlparse(url).query)]: the
    values of each parameter of the query. *)
Variable parse_qs_query : string -> list (string * list string).

Definition ArteTVEmbedIE_real_extract (url : string) : result url_ref :=
  let qs := parse_qs_query url in
  json_urls <- match assoc "json_url" qs with
               | Some vs => Ok vs
               | None => Err KeyError
               end ;;
  json_url <- match json_urls with
              | v :: _ => Ok v
              | [] => Err IndexError
              end ;;
  video_id <- _match_id ArteTVIE._VALID_URL json_url ;;
  Ok (url_result json_url (Some ArteTVIE_ie_key) (Some video_id)).

End Embed.

(** ** [ArteTVPlaylistIE._real_extract] *)

Section Playlist.

(** [utils.url_or_none], [utils.int_or_none], and [utils.try_get] with
    the type [compat_str]. *)
Variable url_or_none : json -> option string.
Variable int_or_none : json -> option Z.
Variable try_get_str : json -> (json -> result json) -> json.

Variable _download_json : string -> string -> result json.

(** One turn of the loop over [collection['videos']]: the entry appended,
    or [None] where the loop [continue]s. *)
Definition playlist_entry_of (video : json) : option playlist_entry :=
  match video with
  | JObj kv =>
      let video_url :=
        or_str (url_or_none (dict_get kv "url"))
               (url_or_none (dict_get kv "jsonUrl")) in
      if nonempty video_url then
        match video_url with
        | Some u =>
            Some (mk_entry u
                    (dict_get kv "programId")
                    (dict_get kv "title")
                    (dict_get kv "subtitle")
                    (url_or_none
                       (try_get_str video
                          (fun x => mi <- getitem x "mainImage" ;;
                                    getitem mi "url")))
                    (int_or_none (dict_get kv "durationSeconds"))
                    (int_or_none (dict_get kv "views"))
                    ArteTVIE_ie_key)
        | None => None
        end
      else None
  | _ => None                          (* not a dict *)
  end.

Fixpoint keep_some {A : Type} (l : list (option A)) : list A :=
  match l with
  | [] => []
  | Some a :: l' => a :: keep_some l'
  | None :: l' => keep_some l'
  end.

(** What [_real_extract] does with the fetched [collection]. *)
Definition playlist_of_collection (playlist_id : string) (collection : json)
  : result (playlist_info playlist_entry) :=
  videos <- getitem collection "videos" ;;
  videos <- py_iter videos ;;
  let entries := keep_some (map playlist_entry_of videos) in
  match collection with
  | JObj kv =>
      let title := dict_get kv "title" in
      let description :=
        py_or (dict_get kv "shortDescription") (dict_get kv "teaserText") in
      Ok (playlist_result entries playlist_id title description)
  | _ => Err AttributeError
  end.

Definition ArteTVPlaylistIE_real_extract (url : string)
  : result (playlist_info playlist_entry) :=
  match re_match ArteTVPlaylistIE._VALID_URL url with
  | None => Err AttributeError
  | Some (caps, _) =>
      match group caps "lang", group caps "id" with
      | Some lang, Some playlist_id =>
          collection <-
            _download_json
              (_API_BASE ++ "/collectionData/" ++ lang ++ "/" ++ playlist_id
               ++ "?source=videos") playlist_id ;;
          playlist_of_collection playlist_id collection
      | _, _ => Err TypeError
      end
  end.

End Playlist.

(** ** [ArteTVCategoryIE._real_extract] *)

Definition dquote : ascii := ascii_of_N 34.

(** The pattern of the links looked for in the page, for the language
    [lang] of the page: [<a\b[^>]*?href\s*=\s*(?P<q>Q|'|\b)
    (?P<url>https?://www\.arte\.tv/LANG/videos/[\w/-]+)(?P=q)], where [Q]
    stands for the double quote and [LANG] for [lang]. *)
Definition link_pattern (lang : string) : regex :=
  Seqs [ Lit "<a"; WordB;
         Star false (Chr (fun c => negb (Ascii.eqb c ">")));
         Lit "href"; Star true Space; Lit "="; Star true Space;
         Group "q" (Alt (Char dquote) (Alt (Char "'") WordB));
         Group "url"
           (Seqs [ Lit "http"; Opt (Lit "s"); Lit "://www.arte.tv/"; Lit lang;
                   Lit "/videos/";
                   Plus (Chr (fun c => is_word c || Ascii.eqb c "/"
                                       || Ascii.eqb c "-")) ]);
         Backref "q" ].

(** [<title\b[^>]*>([^<]+)</title>] *)
Definition title_pattern : regex :=
  Seqs [ Lit "<title"; WordB;
         Star true (Chr (fun c => negb (Ascii.eqb c ">")));
         Lit ">";
         Group "1" (Plus (Chr (fun c => negb (Ascii.eqb c "<"))));
         Lit "</title>" ].

(** The loop over the links of the page: a link equal to the URL of the
    page is passed over, a link is kept when [ArteTVIE] or
    [ArteTVPlaylistIE] finds it suitable. *)
Fixpoint collect_items (url : string) (ms : list match_obj) : list string :=
  match ms with
  | [] => []
  | (caps, _) :: ms' =>
      match group caps "url" with
      | Some video =>
          if String.eqb video url then collect_items url ms'
          else if existsb (fun ie_suitable => ie_suitable video)
                          [Video_suitable; Playlist_suitable]
               then video :: collect_items url ms'
               else collect_items url ms'
      | None => collect_items url ms'
      end
  end.

Definition page_items (lang url webpage : string) : list string :=
  collect_items url (finditer (link_pattern lang) webpage).

(** The two lines that compute the title, from the Open Graph title [og],
    the outcome [html] of the [<title>] search (evaluated only when [og] is
    empty or missing) and the generic title. *)
Definition category_title (og : option string)
           (html : result (option string)) (generic : string)
  : result string :=
  title <- (if nonempty og then Ok og else html) ;;
  match title with
  | None => Err AttributeError           (* [None.rsplit] *)
  | Some t =>
      let stripped := strip_or_none (rsplit1_head "|" t) in
      Ok (match stripped with
          | Some t' => if nonempty stripped then t' else generic
          | None => generic
          end)
  end.

Section Category.

(** [self._download_webpage(url, playlist_id)] *)
Variable _download_webpage : string -> string -> result string.

(** [self._og_search_title(webpage, default=None)] and
    [self._og_search_description(webpage, default=None)] *)
Variable _og_search_title : string -> option string.
Variable _og_search_description : string -> option string.

(** [self._html_search_regex(pattern, default=None)], as arte.py calls
    it: with the pattern alone. *)
Variable _html_search_regex : regex -> result (option string).

(** [self._generic_title(url)] *)
Variable _generic_title : string -> string.

Definition ArteTVCategoryIE_real_extract (url : string)
  : result (option (playlist_info url_ref)) :=
  match re_match ArteTVCategoryIE._VALID_URL url with
  | None => Err AttributeError
  | Some (caps, _) =>
      match group caps "lang", group caps "id" with
      | Some lang, Some playlist_id =>
          webpage <- _download_webpage url playlist_id ;;
          let items := page_items lang url webpage in
          match items with
          | [] => Ok None
          | _ :: _ =>
              title <- category_title (_og_search_title webpage)
                         (_html_search_regex title_pattern)
                         (_generic_title url) ;;
              let res :=
                playlist_from_matches items playlist_id (JStr title) in
              let description := _og_search_description webpage in
              Ok (Some
                    (if nonempty description
                     then mk_playlist (pl_entries res) (pl_id res)
                            (pl_title res)
                            (match description with
                             | Some d => JStr d
                             | None => JNull
                             end)
                     else res))
          end
      | _, _ => Err TypeError
      end
  end.

End Category.

(** ** Resolving a reference *)

Section Delegation.

Variable date : Type.
Variable fromisoformat_date : json -> result date.
Variable py_str : json -> string.
Variable _sort_formats : list format -> result (list format).
Variable _download_json : string -> string -> result json.

(** Modelled from the spec: what the host does with the reference an
    extractor returns, "delegation to Video resolution": the URL of the
    reference goes to the extractor its [ie_key] names, [ArteTVIE]. *)
Definition delegate (r : url_ref) : result (video_record date) :=
  ArteTVIE_real_extract date fromisoformat_date py_str _sort_formats
                        _download_json (ref_url r).

End Delegation.

(** ** The claims of the design, in its words *)

(** Modelled from the spec: a [VideoId] is a "string matching
    [\d{6}-\d{3}-[A-Z]] (6 digits, dash, 3 digits, dash, one uppercase
    letter)". *)
Definition VideoId_pattern : regex :=
  Seqs [ Rep 6 Digit; Lit "-"; Rep 3 Digit; Lit "-"; Chr (in_range 65 90) ].

Definition is_VideoId (s : string) : bool :=
  match re_fullmatch VideoId_pattern s with
  | Some _ => true
  | None => false
  end.

(** The identifiers [ArteTVIE._VALID_URL] accepts: its [id] group,
    [\d{6}-\d{3}-[AF]]. *)
Definition arte_id_pattern : regex :=
  Seqs [ Rep 6 Digit; Lit "-"; Rep 3 Digit; Lit "-"; OneOf "AF" ].

Definition is_arte_id (s : string) : bool :=
  match re_fullmatch arte_id_pattern s with
  | Some _ => true
  | None => false
  end.

(** The six language codes. *)
Definition languages : list string := ["fr"; "de"; "en"; "es"; "it"; "pl"].

(** [https://www.arte.tv/{lang}/videos/{id}] *)
Definition video_page_url (lang id : string) : string :=
  "https://www.arte.tv/" ++ lang ++ "/videos/" ++ id.

(** Modelled from the spec: the title of a category, "first non-empty
    wins: social/open-graph title, then [<title>] element text split at
    the first [|] and trimmed, then a generic title derived from the URL
    path". *)
Definition title_by_precedence (og title_text : option string)
           (generic : string) : string :=
  if nonempty og then match og with Some t => t | None => generic end
  else
    match title_text with
    | Some t =>
        let t' := strip (split1_head "|" t) in
        if negb (String.eqb t' EmptyString) then t' else generic
    | None => generic
    end.

(** How many of the answers are [true]. *)
Definition trues (bs : list bool) : nat :=
  List.length (filter (fun b : bool => b) bs).

(** The codes of a list of formats are in the order [MQ < HQ < EQ < SQ]:
    read through [qualities], the ranks never go down. *)
Fixpoint ascending (zs : list Z) : bool :=
  match zs with
  | [] => true
  | x :: zs' =>
      match zs' with
      | [] => true
      | y :: _ => (x <=? y)%Z && ascending zs'
      end
  end.

(** The configuration endpoint of a video,
    [{apiBase}/config/{lang}/{videoId}]. *)
Definition config_url (lang id : string) : string :=
  _API_BASE ++ "/config/" ++ lang ++ "/" ++ id.

(** [info['data']['attributes']] *)
Definition attributes_of (info : json) : result json :=
  data <- getitem info "data" ;;
  getitem data "attributes".

(** The document has a data-attributes object. *)
Definition has_attributes (info : json) : bool :=
  match attributes_of info with
  | Ok (JObj _) => true
  | _ => false
  end.

Definition is_ok {A : Type} (r : result A) : bool :=
  match r with
  | Ok _ => true
  | Err _ => false
  end.

(** [attributes['rights']['begin']] *)
Definition begin_of (attributes : json) : result json :=
  rights <- getitem attributes "rights" ;;
  getitem rights "begin".

Definition metadata_field (attributes : json) (k : string) : result json :=
  metadata <- getitem attributes "metadata" ;;
  getitem metadata k.

(** [attributes['metadata']['images'][0]] *)
Definition first_image (attributes : json) : result json :=
  images <- metadata_field attributes "images" ;;
  getindex images 0.

(** The fields of C10: [rights.begin], [metadata.providerId],
    [metadata.title], [metadata.description], and a first element of
    [metadata.images]. *)
Definition required_present (attributes : json) : bool :=
  is_ok (begin_of attributes)
  && is_ok (metadata_field attributes "providerId")
  && is_ok (metadata_field attributes "title")
  && is_ok (metadata_field attributes "description")
  && is_ok (first_image attributes).

(** [for stream in attributes['streams']] *)
Definition streams_of (attributes : json) : result (list json) :=
  streams <- getitem attributes "streams" ;;
  py_iter streams.

(** The quality code of a stream, as a string. *)
Definition stream_code (stream : json) : string :=
  match (mq <- getitem stream "mainQuality" ;; getitem mq "code") with
  | Ok (JStr c) => c
  | _ => EmptyString
  end.

(** Whether an entry of [collection['videos']] has a valid direct url or a
    valid alternate json url, and the target these give: the direct url, or
    the json url when there is no valid direct url. *)
Definition target_url (url_or_none : json -> option string) (video : json)
  : option string :=
  match video with
  | JObj kv =>
      if nonempty (url_or_none (dict_get kv "url"))
      then url_or_none (dict_get kv "url")
      else if nonempty (url_or_none (dict_get kv "jsonUrl"))
           then url_or_none (dict_get kv "jsonUrl")
           else None
  | _ => None
  end.

(** ** Instances of the parameters, for the examples *)

(** The calendar date in front of an ISO timestamp, [YYYY-MM-DD]: on
    a string that starts with no such date Python raises [ValueError], on a
    value that is no string [TypeError]. *)
Definition iso_date (j : json) : result string :=
  match j with
  | JStr s =>
      match re_match (Seqs [ Rep 4 Digit; Lit "-"; Rep 2 Digit; Lit "-";
                             Rep 2 Digit ]) s with
      | Some (_, rest) => Ok (consumed s rest)
      | None => Err ValueError
      end
  | _ => Err TypeError
  end.

(** [_sort_formats] as the design describes it: it raises nothing. *)
Definition sort_formats_by_rank (fs : list format) : result (list format) :=
  Ok (sort_by_rank fs).

(** [str(v)] of a string and of [None]. *)
Definition str_of (j : json) : string :=
  match j with
  | JStr s => s
  | _ => "None"
  end.

(** [url_or_none]: a string that, stripped, starts with [//] or with a
    scheme and [//]. *)
Definition url_shaped (j : json) : option string :=
  match j with
  | JStr s =>
      let u := strip s in
      match re_match
              (Seqs [ Opt (Seqs [ Chr (fun c => in_range 65 90 c
                                                || in_range 97 122 c);
                                  Star true
                                    (Chr (fun c => in_range 48 57 c
                                                   || in_range 65 90 c
                                                   || in_range 97 122 c
                                                   || Ascii.eqb c "."
                                                   || Ascii.eqb c "+"
                                                   || Ascii.eqb c "-"));
                                  Lit ":" ]);
                      Lit "//" ]) u with
      | Some _ => Some u
      | None => None
      end
  | _ => None
  end.

(** [int_or_none] of an integer. *)
Definition int_of (j : json) : option Z :=
  match j with
  | JNum z => Some z
  | _ => None
  end.

(** [try_get(src, getter, compat_str)] *)
Definition try_get_string (src : json) (getter : json -> result json) : json :=
  match getter src with
  | Ok (JStr s) => JStr s
  | _ => JNull
  end.

Definition stream (code label url : string) : json :=
  JObj [ ("url", JStr url);
         ("mainQuality", JObj [("code", JStr code); ("label", JStr label)]) ].

(** A configuration document with the given streams and metadata. *)
Definition config_doc (begin : string) (streams : list json)
           (metadata : list (string * json)) : json :=
  JObj [ ("data",
          JObj [ ("attributes",
                  JObj [ ("rights", JObj [("begin", JStr begin)]);
                         ("streams", JArr streams);
                         ("metadata", JObj metadata) ]) ]) ].

Definition full_metadata : list (string * json) :=
  [ ("providerId", JStr "088501-000-A");
    ("title", JStr "Mexico: Stealing Petrol to Survive");
    ("description", JStr "A report");
    ("images", JArr [JObj [("url", JStr "https://example.org/i.jpg")]]) ].

(** Two streams, the better one first. *)
Definition streams_SQ_MQ : list json :=
  [ stream "SQ" "720p" "https://example.org/sq.mp4";
    stream "MQ" "216p" "https://example.org/mq.mp4" ].

(** The attributes of [config_doc]. *)
Definition config_attributes (begin : string) (streams : list json)
           (metadata : list (string * json)) : json :=
  JObj [ ("rights", JObj [("begin", JStr begin)]);
         ("streams", JArr streams);
         ("metadata", JObj metadata) ].

(** A well-formed document whose streams are [streams_SQ_MQ]. *)
Definition doc_SQ_MQ : json :=
  config_doc "2019-06-28T03:00:00+00:00" streams_SQ_MQ full_metadata.

(** The record [doc_SQ_MQ] resolves to. *)
Definition video_SQ_MQ : video_record string :=
  mk_video (JStr "088501-000-A") (JStr "Mexico: Stealing Petrol to Survive")
           (JStr "A report") "2019-06-28"
           (JStr "https://example.org/i.jpg")
           [ mk_format 0 "SQ, 720p" (JStr "https://example.org/sq.mp4") None;
             mk_format 0 "MQ, 216p" (JStr "https://example.org/mq.mp4") None ].

(** A document whose list of images is empty. *)
Definition metadata_no_images : list (string * json) :=
  [ ("providerId", JStr "088501-000-A");
    ("title", JStr "Mexico: Stealing Petrol to Survive");
    ("description", JStr "A report");
    ("images", JArr []) ].

(** A document with no title, and whose [rights.begin] is no ISO
    timestamp. *)
Definition metadata_no_title : list (string * json) :=
  [ ("providerId", JStr "088501-000-A");
    ("description", JStr "A report");
    ("images", JArr [JObj [("url", JStr "https://example.org/i.jpg")]]) ].

Definition doc_no_title_bad_date : json :=
  config_doc "28/06/2019" streams_SQ_MQ metadata_no_title.

(** Whether an entry of [collection['videos']] has a valid direct url or a
    valid alternate json url. *)
Definition has_valid_url (url_or_none : json -> option string) (video : json)
  : bool :=
  match video with
  | JObj kv =>
      nonempty (url_or_none (dict_get kv "url"))
      || nonempty (url_or_none (dict_get kv "jsonUrl"))
  | _ => false
  end.

(** [collection['videos']], as the loop visits it. *)
Definition videos_of (collection : json) : result (list json) :=
  videos <- getitem collection "videos" ;;
  py_iter videos.

(** A category page and its URL: the page links to a video, to itself, to
    a playlist and to another category. *)
Definition category_url : string :=
  "https://www.arte.tv/en/videos/politics-and-society/".

Definition category_page : string :=
  "<html><head><title>Politics and society | ARTE</title></head><body>"
  ++ "<a class='teaser' href='https://www.arte.tv/en/videos/088501-000-A/mexico-stealing-petrol-to-survive/'>Mexico</a>"
  ++ "<a href='https://www.arte.tv/en/videos/politics-and-society/'>Politics</a>"
  ++ "<a href='https://www.arte.tv/en/videos/RC-016954/earn-a-living/'>Earn a Living</a>"
  ++ "<a href='https://www.arte.tv/en/videos/culture/'>Culture</a>"
  ++ "</body></html>".

(** The playlist [category_page] gives, under the title [title]. *)
Definition category_playlist (title : string) : playlist_info url_ref :=
  mk_playlist
    [ mk_url_ref "https://www.arte.tv/en/videos/088501-000-A/mexico-stealing-petrol-to-survive/" None None;
      mk_url_ref "https://www.arte.tv/en/videos/RC-016954/earn-a-living/" None None ]
    "politics-and-society" (JStr title) JNull.

(** A page that links to itself and to another category only. *)
Definition page_without_videos : string :=
  "<html><body>"
  ++ "<a href='https://www.arte.tv/en/videos/politics-and-society/'>Politics</a>"
  ++ "<a href='https://www.arte.tv/en/videos/culture/'>Culture</a>"
  ++ "</body></html>".

(** A collection whose entries are a video with a direct url, a video with
    a json url only, a video with neither, and a stray string. *)
Definition collection_doc : json :=
  JObj [ ("title", JStr "Earn a Living");
         ("shortDescription", JNull);
         ("teaserText", JStr "Work in the 21st century");
         ("videos",
          JArr [ JObj [ ("programId", JStr "088501-000-A");
                        ("url", JStr "https://www.arte.tv/en/videos/088501-000-A/x/");
                        ("durationSeconds", JNum 1500) ];
                 JObj [ ("programId", JStr "100605-013-A");
                        ("jsonUrl", JStr "https://api.arte.tv/api/player/v2/config/en/100605-013-A") ];
                 JObj [ ("programId", JStr "100103-000-A");
                        ("url", JStr "not a url") ];
                 JStr "stray" ]) ].

(** The Embed URL of the tests of arte.py, and what [parse_qs] finds in
    its query. *)
Definition test_embed_url : string :=
  "https://www.arte.tv/player/v5/index.php?json_url=https%3A%2F%2Fapi.arte.tv%2Fapi%2Fplayer%2Fv2%2Fconfig%2Fde%2F100605-013-A&lang=de&autoplay=true&mute=0100605-013-A".

Definition parse_qs_of_test (url : string) : list (string * list string) :=
  [ ("json_url",
     ["https://api.arte.tv/api/player/v2/config/de/100605-013-A"]);
    ("lang", ["de"]); ("autoplay", ["true"]); ("mute", ["0100605-013-A"]) ].

(** ** What a match is

    [matched r prev caps w rest caps']: the pattern [r] matches the word
    [w] when [prev] is the character in front of it and [rest] what
    follows it in the subject; the groups go from [caps] to [caps']. *)

Inductive matched
  : regex -> option ascii -> captures -> string -> string -> captures -> Prop :=
| M_Eps prev caps rest :
    matched Eps prev caps EmptyString rest caps
| M_Char a prev caps rest :
    matched (Char a) prev caps (String a EmptyString) rest caps
| M_Chr (f : ascii -> bool) c prev caps rest :
    f c = true ->
    matched (Chr f) prev caps (String c EmptyString) rest caps
| M_Seq a b prev caps w1 w2 rest caps1 caps2 :
    matched a prev caps w1 (w2 ++ rest) caps1 ->
    matched b (last_char w1 prev) caps1 w2 rest caps2 ->
    matched (Seq a b) prev caps (w1 ++ w2) rest caps2
| M_AltL a b prev caps w rest caps1 :
    matched a prev caps w rest caps1 ->
    matched (Alt a b) prev caps w rest caps1
| M_AltR a b prev caps w rest caps1 :
    matched b prev caps w rest caps1 ->
    matched (Alt a b) prev caps w rest caps1
| M_Star0 g a prev caps rest :
    matched (Star g a) prev caps EmptyString rest caps
| M_StarS g a prev caps w1 w2 rest caps1 caps2 :
    w1 <> EmptyString ->
    matched a prev caps w1 (w2 ++ rest) caps1 ->
    matched (Star g a) (last_char w1 prev) caps1 w2 rest caps2 ->
    matched (Star g a) prev caps (w1 ++ w2) rest caps2
| M_Group n a prev caps w rest caps1 :
    matched a prev caps w rest caps1 ->
    matched (Group n a) prev caps w rest ((n, w) :: caps1)
| M_Backref n v prev caps rest :
    group caps n = Some v ->
    matched (Backref n) prev caps v rest caps
| M_WordB prev caps rest :
    xorb (word_before prev) (word_after rest) = true ->
    matched WordB prev caps EmptyString rest caps
| M_Dollar prev caps rest :
    at_end rest = true ->
    matched Dollar prev caps EmptyString rest caps.

(** The identifiers [ArteTVPlaylistIE._VALID_URL] accepts: its [id] group,
    [RC-\d{6}]. *)
Definition playlist_id_pattern : regex := Seq (Lit "RC-") (Rep 6 Digit).

Definition is_playlist_id (s : string) : bool :=
  match re_fullmatch playlist_id_pattern s with
  | Some _ => true
  | None => false
  end.

(** The address [ArteTVPlaylistIE._real_extract] fetches:
    [{apiBase}/collectionData/{lang}/{playlistId}?source=videos]. *)
Definition collection_url (lang playlist_id : string) : string :=
  _API_BASE ++ "/collectionData/" ++ lang ++ "/" ++ playlist_id
  ++ "?source=videos".

(** Every character of [s] is in the class [f]. *)
Fixpoint all_chars (f : ascii -> bool) (s : string) : bool :=
  match s with
  | EmptyString => true
  | String c s' => f c && all_chars f s'
  end.

(** The characters of a link the crawl follows, [[\w/-]]. *)
Definition is_path_char (c : ascii) : bool :=
  is_word c || Ascii.eqb c "/" || Ascii.eqb c "-".

(** [s.startswith(p)] *)
Definition starts_with (p s : string) : bool :=
  match strip_prefix p s with
  | Some _ => true
  | None => false
  end.

(** The two addresses a video or a category of the language [lang] can
    start with in a page of www.arte.tv. *)
Definition arte_videos_prefix (secure : bool) (lang : string) : string :=
  (if secure then "https" else "http") ++ "://www.arte.tv/" ++ lang
  ++ "/videos/".

Definition on_arte_videos (lang url : string) : bool :=
  starts_with (arte_videos_prefix true lang) url
  || starts_with (arte_videos_prefix false lang) url.

(** The loop of the matcher on a repetition, by name: [mt (Star g a)] is
    this loop on the matcher of [a], with as many turns allowed as the
    subject has characters. *)
Definition star_loop {R : Type}
           (ma : option ascii -> string -> captures -> cont R -> option R)
           (greedy : bool) (k : cont R)
  : nat -> option ascii -> string -> captures -> option R :=
  fix loop (fuel : nat) (prev : option ascii) (s : string) (caps : captures)
      {struct fuel} : option R :=
    match fuel with
    | O => k prev s caps
    | S fuel' =>
        let again :=
          ma prev s caps
             (fun p' s' c' =>
                if Nat.ltb (String.length s') (String.length s)
                then loop fuel' p' s' c' else None) in
        if greedy then orelse again (k prev s caps)
        else orelse (k prev s caps) again
    end.

(** ** The shapes of the URLs of a video *)

Definition scheme (secure : bool) : string :=
  if secure then "https" else "http".

(** [http(s)://(www.)arte.tv/{lang}/videos/] *)
Definition video_page_prefix (secure www : bool) (lang : string) : string :=
  scheme secure ++ "://" ++ (if www then "www." else EmptyString) ++ "arte.tv/"
  ++ lang ++ "/videos/".

(** [http(s)://api.arte.tv/api/player/v{version}/config/{lang}/] *)
Definition video_api_prefix (secure : bool) (version lang : string) : string :=
  scheme secure ++ "://api.arte.tv/api/player/v" ++ version ++ "/config/"
  ++ lang ++ "/".

(** [rest] does not go on with a character of the class [f]. *)
Definition stops (f : ascii -> bool) (rest : string) : bool :=
  match rest with
  | EmptyString => true
  | String c _ => negb (f c)
  end.

(** A pattern that reads characters only: no group, no back-reference,
    no [\b] and no [$]. What it matches does not depend on where the word
    stands. *)
Fixpoint plain (r : regex) : bool :=
  match r with
  | Eps | Char _ | Chr _ => true
  | Seq a b | Alt a b => plain a && plain b
  | Star _ a => plain a
  | Group _ _ | Backref _ | WordB | Dollar => false
  end.

(** The paths [ArteTVCategoryIE._VALID_URL] accepts: its [id] group,
    [[\w-]+(?:/[\w-]+)*]. *)
Definition category_id_pattern : regex :=
  Seq (Plus WordDash) (Star true (Seq (Lit "/") (Plus WordDash))).

Definition is_category_path (s : string) : bool :=
  match re_fullmatch category_id_pattern s with
  | Some _ => true
  | None => false
  end.

(** ** [ArteTVEmbedIE._extract_urls] *)

(** The address of a player in its pattern, the [url] group:
    [(?:https?:)?//(?:www\.)?arte\.tv/player/v\d+/index\.php\?.*?\bjson_url=.+?] *)
Definition player_url_pattern : regex :=
  Seqs [ Opt (Seqs [ Lit "http"; Opt (Lit "s"); Lit ":" ]); Lit "//";
         Opt (Lit "www."); Lit "arte.tv/player/v"; Plus Digit;
         Lit "/index.php?"; Star false Dot; WordB; Lit "json_url=";
         LazyPlus Dot ].

(** [<(?:iframe|script)[^>]+src=(Q|')(?P<url>...)\1], where [Q] stands for
    the double quote; the first group is written ["1"]. *)
Definition player_tag_pattern : regex :=
  Seqs [ Lit "<"; Alt (Lit "iframe") (Lit "script");
         Plus (Chr (fun c => negb (Ascii.eqb c ">")));
         Lit "src=";
         Group "1" (Chr (fun c => Ascii.eqb c dquote || Ascii.eqb c "'"));
         Group "url" player_url_pattern;
         Backref "1" ].

(** [[url for _, url in re.findall(pattern, webpage)]]: [re.findall]
    gives, for each match found as [re.finditer] finds them, the texts of
    the two groups, the empty string for a group that took no part. *)
Definition _extract_urls (webpage : string) : list string :=
  map (fun m : match_obj =>
         match group (fst m) "url" with
         | Some url => url
         | None => EmptyString
         end)
      (finditer player_tag_pattern webpage).

(** The address of a player after its scheme, as [ArteTVEmbedIE._VALID_URL]
    has it. *)
Definition player_body_pattern : regex :=
  Seqs [ Opt (Lit "www."); Lit "arte.tv/player/v"; Plus Digit;
         Lit "/index.php?"; Star false Dot; WordB; Lit "json_url=";
         Plus Dot ].

(** A page with a player in an [iframe], its address without a scheme. *)
Definition page_with_player : string :=
  "<p><iframe width='720' src='//www.arte.tv/player/v5/index.php?json_url=https%3A%2F%2Fapi.arte.tv%2Fapi%2Fplayer%2Fv2%2Fconfig%2Fde%2F100605-013-A&lang=de'></iframe></p>".

(** * Properties *)

(** ** Strings and prefixes *)

Lemma strip_prefix_app (p s : string) : strip_prefix p (p ++ s) = Some s.
Proof.
  induction p as [|a p IH]; simpl; [reflexivity|].
  now rewrite Ascii.eqb_refl.
Qed.

Lemma strip_prefix_Some (p s s' : string) :
  strip_prefix p s = Some s' -> s = p ++ s'.
Proof.
  revert s; induction p as [|a p IH]; intros s H; simpl in *.
  - now inversion H.
  - destruct s as [|b s]; [discriminate|].
    destruct (Ascii.eqb_spec a b) as [->|]; [|discriminate].
    now rewrite (IH _ H).
Qed.

Lemma append_assoc (a b c : string) : (a ++ b) ++ c = a ++ (b ++ c).
Proof. induction a as [|x a IH]; simpl; [reflexivity | now rewrite IH]. Qed.

Lemma length_app (a b : string) :
  String.length (a ++ b) = String.length a + String.length b.
Proof. induction a as [|x a IH]; simpl; [reflexivity | now rewrite IH]. Qed.

(** Two ways to cut one string: one of the heads starts the other. *)
Lemma append_eq_split (p q s1 s2 : string) :
  p ++ s1 = q ++ s2 ->
  (exists r, q = p ++ r /\ s1 = r ++ s2) \/
  (exists r, p = q ++ r /\ s2 = r ++ s1).
Proof.
  revert q; induction p as [|a p IH]; intros q H; simpl in *.
  - left; exists q; split; [reflexivity | assumption].
  - destruct q as [|b q]; simpl in *.
    + right; exists (String a p); split; [reflexivity | now rewrite <- H].
    + injection H as -> H.
      destruct (IH _ H) as [(r & -> & ->) | (r & -> & ->)].
      * left; exists r; split; reflexivity.
      * right; exists r; split; reflexivity.
Qed.

(** ** The literal prefixes of a pattern are those of its matches *)

Lemma orelse_Some {A : Type} (x y : option A) (v : A) :
  orelse x y = Some v -> x = Some v \/ y = Some v.
Proof. destruct x; simpl; intros H; [left | right]; assumption. Qed.

Lemma lead_sound {R : Type} (r : regex) :
  forall prev s caps (k : cont R) v,
    mt r prev s caps k = Some v ->
    exists x, In x (lead r) /\ described s k v x.
Proof.
  induction r as [ | a | f | a IHa b IHb | a IHa b IHb | g a IHa | n a IHa
                   | n | | ]; intros prev s caps k v H; simpl in H.
  - exists (EmptyString, Done); split; [now left|].
    exists s; split; [reflexivity | now exists prev, caps].
  - destruct s as [|c s]; [discriminate|].
    destruct (Ascii.eqb_spec a c) as [->|]; [|discriminate].
    exists (String c EmptyString, Done); split; [now left|].
    exists s; split; [reflexivity | now exists (Some c), caps].
  - destruct s as [|c s]; [discriminate|].
    destruct (f c) eqn:Hf; [|discriminate].
    exists (EmptyString, Next f); split; [now left|].
    exists (String c s); split; [reflexivity | now exists c, s].
  - destruct (IHa _ _ _ _ _ H) as ([p t] & Hin & s' & Hs & Ht).
    simpl in Hs, Ht. destruct t as [|f|].
    + destruct Ht as (prev' & caps' & Hk).
      destruct (IHb _ _ _ _ _ Hk) as ([q u] & Hin' & s'' & Hs' & Hu).
      simpl in Hs', Hu.
      exists (p ++ q, u); split.
      * simpl. apply in_flat_map. exists (p, Done); split; [assumption|].
        simpl. apply in_map_iff. now exists (q, u).
      * exists s''; split; [|assumption].
        simpl. now rewrite append_assoc, <- Hs'.
    + exists (p, Next f); split.
      * simpl. apply in_flat_map. exists (p, Next f); split; [assumption|].
        now left.
      * now exists s'.
    + exists (p, Open); split.
      * simpl. apply in_flat_map. exists (p, Open); split; [assumption|].
        now left.
      * now exists s'.
  - apply orelse_Some in H. destruct H as [H|H].
    + destruct (IHa _ _ _ _ _ H) as (x & Hin & Hx).
      exists x; split; [simpl; apply in_or_app; now left | assumption].
    + destruct (IHb _ _ _ _ _ H) as (x & Hin & Hx).
      exists x; split; [simpl; apply in_or_app; now right | assumption].
  - exists (EmptyString, Open); split; [now left|].
    now exists s.
  - destruct (IHa _ _ _ _ _ H) as ([p t] & Hin & s' & Hs & Ht).
    exists (p, t); split; [assumption|].
    exists s'; split; [assumption|].
    simpl in *. destruct t; [|assumption|assumption].
    destruct Ht as (prev' & caps' & Hk). eauto.
  - exists (EmptyString, Open); split; [now left|].
    now exists s.
  - destruct (xorb _ _); [|discriminate].
    exists (EmptyString, Done); split; [now left|].
    exists s; split; [reflexivity | now exists prev, caps].
  - destruct (at_end s); [|discriminate].
    exists (EmptyString, Done); split; [now left|].
    exists s; split; [reflexivity | now exists prev, caps].
Qed.

Lemma fits_described {R : Type} (k : cont R) (v : R) (r : string)
      (t : tail) (rest : string) :
  match t with
  | Done => exists prev' caps', k prev' (r ++ rest) caps' = Some v
  | Next f => exists c s'', r ++ rest = String c s'' /\ f c = true
  | Open => True
  end ->
  fits t r = true.
Proof.
  destruct t as [|f|]; simpl; intros H; try reflexivity.
  destruct r as [|c r]; [reflexivity|].
  destruct H as (c' & s'' & Heq & Hf). simpl in Heq.
  injection Heq as -> _. assumption.
Qed.

(** The same subject described in two ways: the two are compatible. *)
Lemma described_compatible {R1 R2 : Type} (s : string)
      (k1 : cont R1) (v1 : R1) (k2 : cont R2) (v2 : R2)
      (x y : string * tail) :
  described s k1 v1 x -> described s k2 v2 y -> compatible x y = true.
Proof.
  destruct x as [p t], y as [q u].
  intros (s1 & Hs1 & Ht) (s2 & Hs2 & Hu). simpl in *.
  unfold compatible; simpl.
  rewrite Hs1 in Hs2.
  destruct (append_eq_split _ _ _ _ Hs2) as [(r & -> & ->) | (r & -> & ->)].
  - rewrite strip_prefix_app.
    now apply (fits_described k1 v1 r t s2).
  - destruct (strip_prefix (q ++ r) q) as [r'|] eqn:E.
    + apply strip_prefix_Some in E.
      assert (Hr' : r' = EmptyString).
      { assert (L : String.length q = String.length ((q ++ r) ++ r'))
          by now rewrite <- E.
        rewrite !length_app in L.
        destruct r'; [reflexivity | simpl in L; lia]. }
      subst r'. now destruct t.
    + rewrite strip_prefix_app.
      now apply (fits_described k2 v2 r u s1).
Qed.

Lemma apart_sound (xs ys : list (string * tail)) (x y : string * tail) :
  apart xs ys = true -> In x xs -> In y ys -> compatible x y = false.
Proof.
  unfold apart. intros H Hx Hy.
  rewrite forallb_forall in H. specialize (H _ Hx).
  rewrite forallb_forall in H. specialize (H _ Hy).
  now apply negb_true_iff in H.
Qed.

(** Patterns whose literal prefixes are apart match no common subject. *)
Lemma suitable_apart (r1 r2 : regex) (url : string) :
  apart (lead r1) (lead r2) = true ->
  suitable r1 url = true -> suitable r2 url = false.
Proof.
  intros Hap H1.
  destruct (suitable r2 url) eqn:H2; [exfalso | reflexivity].
  unfold suitable, re_match in H1, H2.
  destruct (mt r1 _ _ _ _) as [v1|] eqn:E1; [|discriminate].
  destruct (mt r2 _ _ _ _) as [v2|] eqn:E2; [|discriminate].
  destruct (lead_sound _ _ _ _ _ _ E1) as (x & Hx & Dx).
  destruct (lead_sound _ _ _ _ _ _ E2) as (y & Hy & Dy).
  pose proof (described_compatible _ _ _ _ _ _ _ Dx Dy) as C.
  rewrite (apart_sound _ _ _ _ Hap Hx Hy) in C. discriminate.
Qed.

(** ** The four [suitable] predicates exclude one another *)

Lemma Video_not_Embed (url : string) :
  Video_suitable url = true -> Embed_suitable url = false.
Proof. apply suitable_apart. vm_compute. reflexivity. Qed.

Lemma Video_not_Playlist (url : string) :
  Video_suitable url = true -> Playlist_suitable url = false.
Proof. apply suitable_apart. vm_compute. reflexivity. Qed.

Lemma Embed_not_Playlist (url : string) :
  Embed_suitable url = true -> Playlist_suitable url = false.
Proof. apply suitable_apart. vm_compute. reflexivity. Qed.

Lemma Category_pattern_not_Embed (url : string) :
  suitable ArteTVCategoryIE._VALID_URL url = true -> Embed_suitable url = false.
Proof. apply suitable_apart. vm_compute. reflexivity. Qed.

Lemma Category_guard (url : string) :
  Category_suitable url = true ->
  Video_suitable url = false /\ Playlist_suitable url = false /\
  suitable ArteTVCategoryIE._VALID_URL url = true.
Proof.
  unfold Category_suitable. simpl. intros H.
  apply andb_true_iff in H. destruct H as [G M].
  apply negb_true_iff in G. rewrite orb_false_r in G.
  apply orb_false_iff in G. tauto.
Qed.

(** C1. For every URL at most one of the predicates of Video, Embed and
    Playlist is true, and the predicate of Category is never true together
    with one of these three. *)
Theorem C1_suitable_exclusive (url : string) :
  (trues [Video_suitable url; Embed_suitable url; Playlist_suitable url] <= 1)%nat
  /\ Category_suitable url
     && (Video_suitable url || Embed_suitable url || Playlist_suitable url)
     = false.
Proof.
  split.
  - pose proof (Video_not_Embed url) as VE.
    pose proof (Video_not_Playlist url) as VP.
    pose proof (Embed_not_Playlist url) as EP.
    destruct (Video_suitable url), (Embed_suitable url),
      (Playlist_suitable url); unfold trues; simpl; try lia;
      try (specialize (VE eq_refl); discriminate);
      try (specialize (VP eq_refl); discriminate);
      specialize (EP eq_refl); discriminate.
  - destruct (Category_suitable url) eqn:C; [simpl | reflexivity].
    destruct (Category_guard _ C) as (V & P & M).
    rewrite V, P, (Category_pattern_not_Embed _ M). reflexivity.
Qed.

(** The URLs of the [_TESTS] of arte.py go to the extractor that lists
    them, with the identifier the test expects. *)
Lemma tests_of_arte_py :
  forallb Video_suitable
    [ "https://www.arte.tv/en/videos/088501-000-A/mexico-stealing-petrol-to-survive/";
      "https://www.arte.tv/pl/videos/100103-000-A/usa-dyskryminacja-na-porodowce/";
      "https://api.arte.tv/api/player/v2/config/de/100605-013-A" ] = true
  /\ forallb Embed_suitable
       [ test_embed_url;
         "https://www.arte.tv/player/v3/index.php?json_url=https://api.arte.tv/api/player/v2/config/de/100605-013-A" ]
     = true
  /\ forallb Playlist_suitable
       [ "https://www.arte.tv/en/videos/RC-016954/earn-a-living/";
         "https://www.arte.tv/pl/videos/RC-014123/arte-reportage/" ] = true
  /\ Category_suitable category_url = true
  /\ _match_id ArteTVIE._VALID_URL
       "https://www.arte.tv/en/videos/088501-000-A/mexico-stealing-petrol-to-survive/"
     = Ok "088501-000-A"
  /\ _match_id ArteTVPlaylistIE._VALID_URL
       "https://www.arte.tv/en/videos/RC-016954/earn-a-living/"
     = Ok "RC-016954"
  /\ _match_id ArteTVCategoryIE._VALID_URL category_url
     = Ok "politics-and-society".
Proof. repeat split; vm_compute; reflexivity. Qed.

(** ** Video pages *)

(** The shape of an identifier: its characters, one by one. *)
Ltac arte_id_chars Hid id :=
  unfold is_arte_id, re_fullmatch, arte_id_pattern, OneOf, Digit in Hid;
  cbn [mt Seqs Rep Lit] in Hid;
  repeat (destruct id as [|? id]; [discriminate|];
          match type of Hid with
          | context [if is_digit ?c then _ else _] =>
              let E := fresh "D" in destruct (is_digit c) eqn:E; [|discriminate]
          | context [if Ascii.eqb "-" ?c then _ else _] =>
              destruct (Ascii.eqb_spec "-" c) as [<-|]; [|discriminate]
          end);
  destruct id as [|?l id]; [discriminate|];
  cbn [existsb list_ascii_of_string orb] in Hid;
  destruct id as [|? ?]; [|destruct (_ || _); discriminate];
  destruct (Ascii.eqb_spec l "A") as [->|];
    [|destruct (Ascii.eqb_spec l "F") as [->|]; [|discriminate]].

Lemma Video_suitable_page (lang id : string) :
  In lang languages -> is_arte_id id = true ->
  Video_suitable (video_page_url lang id) = true.
Proof.
  intros Hl Hid.
  arte_id_chars Hid id.
  all: unfold Video_suitable, suitable, re_match, video_page_url; simpl in Hl;
       decompose [or] Hl; subst; try contradiction; simpl;
       rewrite ?D, ?D0, ?D1, ?D2, ?D3, ?D4, ?D5, ?D6, ?D7; reflexivity.
Qed.

(** C3, as the code has it. For every language code of the six and every
    identifier made of 6 digits, a dash, 3 digits, a dash and the letter A
    or F, the page URL of the video is suitable for Video and for none of
    Embed, Playlist and Category. *)
Theorem C3_video_page_classified (lang id : string) :
  In lang languages -> is_arte_id id = true ->
  Video_suitable (video_page_url lang id) = true
  /\ Embed_suitable (video_page_url lang id) = false
  /\ Playlist_suitable (video_page_url lang id) = false
  /\ Category_suitable (video_page_url lang id) = false.
Proof.
  intros Hl Hid.
  pose proof (Video_suitable_page _ _ Hl Hid) as V.
  repeat split.
  - assumption.
  - now apply Video_not_Embed.
  - now apply Video_not_Playlist.
  - unfold Category_suitable. simpl. now rewrite V.
Qed.

Lemma C3_video_page_classified_witness :
  Video_suitable (video_page_url "pl" "100103-000-A") = true
  /\ Embed_suitable (video_page_url "pl" "100103-000-A") = false
  /\ Playlist_suitable (video_page_url "pl" "100103-000-A") = false
  /\ Category_suitable (video_page_url "pl" "100103-000-A") = false.
Proof.
  apply (C3_video_page_classified "pl" "100103-000-A").
  - simpl; tauto.
  - vm_compute; reflexivity.
Defined.

(** C3, as the design words it, fails: an identifier that ends in a letter
    other than A and F is a [VideoId], yet its page URL is not suitable for
    Video, and Category claims it. *)
Lemma C3_counterexample :
  In "en" languages
  /\ is_VideoId "123456-000-B" = true
  /\ Video_suitable (video_page_url "en" "123456-000-B") = false
  /\ Category_suitable (video_page_url "en" "123456-000-B") = true.
Proof. repeat split; [simpl; tauto | vm_compute; reflexivity ..]. Qed.

(** ** Lookups raise lookup errors *)

Lemma getitem_error (j : json) (k : string) (e : py_error) :
  getitem j k = Err e -> lookup_error e = true.
Proof.
  destruct j; simpl; try (intros H; inversion H; reflexivity).
  destruct (assoc k l); intros H; inversion H; reflexivity.
Qed.

Lemma getindex_error (j : json) (i : nat) (e : py_error) :
  getindex j i = Err e -> lookup_error e = true.
Proof.
  destruct j; simpl; try (intros H; inversion H; reflexivity).
  - destruct (String.get i s); intros H; inversion H; reflexivity.
  - destruct (nth_error l i); intros H; inversion H; reflexivity.
Qed.

Lemma py_iter_error (j : json) (e : py_error) :
  py_iter j = Err e -> lookup_error e = true.
Proof. destruct j; simpl; intros H; inversion H; reflexivity. Qed.

Create HintDb lookups.
#[local] Hint Resolve getitem_error getindex_error py_iter_error : lookups.

(** One lookup of a chain: either it raises, and the error is a lookup
    error, or the chain goes on. *)
Ltac lookup_step :=
  match goal with
  | |- context [bind ?r _] =>
      let e := fresh "e" in
      let E := fresh "E" in
      destruct r as [?|e] eqn:E; cbn [bind] in *;
      [ | exists e; split; [reflexivity | left; eauto with lookups] ]
  end.

Lemma getitem_not_object (j : json) (k : string) :
  (forall kv, j <> JObj kv) -> getitem j k = Err TypeError.
Proof.
  intros H. destruct j; try reflexivity. now destruct (H l).
Qed.

Lemma stream_format_error (py_str : json -> string) (stream : json)
      (e : py_error) :
  stream_format py_str stream = Err e -> lookup_error e = true.
Proof.
  unfold stream_format.
  destruct (getitem stream "mainQuality") as [mq|e0] eqn:E0; cbn [bind];
    [| intros H; inversion H; subst; eapply getitem_error; eassumption].
  destruct (getitem mq "code") as [c|e1] eqn:E1; cbn [bind];
    [| intros H; inversion H; subst; eapply getitem_error; eassumption].
  destruct (getitem mq "label") as [l|e2] eqn:E2; cbn [bind];
    [| intros H; inversion H; subst; eapply getitem_error; eassumption].
  destruct (getitem stream "url") as [u|e3] eqn:E3; cbn [bind];
    [| intros H; inversion H; subst; eapply getitem_error; eassumption].
  discriminate.
Qed.

Lemma stream_format_quality (py_str : json -> string) (stream : json)
      (f : format) :
  stream_format py_str stream = Ok f -> quality f = None.
Proof.
  unfold stream_format.
  destruct (getitem stream "mainQuality") as [mq|]; cbn [bind]; [|discriminate].
  destruct (getitem mq "code"); cbn [bind]; [|discriminate].
  destruct (getitem mq "label"); cbn [bind]; [|discriminate].
  destruct (getitem stream "url"); cbn [bind]; [|discriminate].
  intros H; inversion H; reflexivity.
Qed.

Lemma mapM_error {A B : Type} (f : A -> result B) (l : list A) (e : py_error) :
  mapM f l = Err e -> exists a, In a l /\ f a = Err e.
Proof.
  induction l as [|a l IH]; simpl; [discriminate|].
  destruct (f a) as [b|e0] eqn:Ea; cbn [bind].
  - destruct (mapM f l) as [bs|e1]; cbn [bind]; [discriminate|].
    intros H; inversion H; subst.
    destruct (IH eq_refl) as (a' & Hin & Ha'). exists a'; auto.
  - intros H; inversion H; subst. exists a; auto.
Qed.

Lemma mapM_Forall {A B : Type} (f : A -> result B) (P : B -> Prop) :
  (forall a b, f a = Ok b -> P b) ->
  forall l bs, mapM f l = Ok bs -> Forall P bs.
Proof.
  intros Hf. induction l as [|a l IH]; simpl; intros bs H.
  - inversion H; constructor.
  - destruct (f a) as [b|] eqn:Ea; cbn [bind] in H; [|discriminate].
    destruct (mapM f l) as [bs'|]; cbn [bind] in H; [|discriminate].
    inversion H; subst. constructor; eauto.
Qed.

(** ** The sort leaves formats without a rank where they are *)

Lemma sort_unranked (fs : list format) :
  Forall (fun f => quality f = None) fs -> sort_by_rank fs = fs.
Proof.
  unfold sort_by_rank.
  induction 1 as [|f fs Hf Hfs IH]; simpl; [reflexivity|].
  rewrite IH. destruct Hfs as [|g fs' Hg _]; simpl; [reflexivity|].
  unfold rank. rewrite Hf, Hg. reflexivity.
Qed.

Lemma stream_formats_sorted (py_str : json -> string) (streams : list json)
      (fs : list format) :
  mapM (stream_format py_str) streams = Ok fs -> sort_by_rank fs = fs.
Proof.
  intros H. apply sort_unranked.
  apply (mapM_Forall _ _ (stream_format_quality py_str) _ _ H).
Qed.

(** ** The sort of the design sorts *)

Lemma ascending_cons (x y : Z) (zs : list Z) :
  ascending (x :: y :: zs) = (x <=? y)%Z && ascending (y :: zs).
Proof. reflexivity. Qed.

Lemma insert_by_rank_head (f : format) (fs : list format) :
  exists g gs, insert_by_rank f fs = g :: gs
               /\ (g = f \/ exists fs', fs = g :: fs' /\ (rank g < rank f)%Z).
Proof.
  destruct fs as [|g fs]; simpl.
  - exists f, []; auto.
  - destruct (Z.leb_spec (rank f) (rank g)).
    + exists f, (g :: fs); auto.
    + exists g, (insert_by_rank f fs); split; [reflexivity|].
      right; exists fs; auto.
Qed.

Lemma insert_by_rank_ascending (f : format) (fs : list format) :
  ascending (map rank fs) = true ->
  ascending (map rank (insert_by_rank f fs)) = true.
Proof.
  induction fs as [|g fs IH]; intros H; [reflexivity|].
  simpl. destruct (Z.leb_spec (rank f) (rank g)) as [L|L].
  - cbn [map]. rewrite ascending_cons. apply andb_true_iff; split.
    + now apply Z.leb_le.
    + exact H.
  - assert (Hfs : ascending (map rank fs) = true).
    { destruct fs as [|h fs]; [reflexivity|].
      cbn [map] in H. rewrite ascending_cons in H.
      now apply andb_true_iff in H. }
    specialize (IH Hfs).
    destruct (insert_by_rank_head f fs) as (h & hs & E & Hh).
    rewrite E in *. cbn [map] in *. rewrite ascending_cons.
    apply andb_true_iff; split; [|exact IH].
    apply Z.leb_le. destruct Hh as [->|(fs' & -> & _)]; [lia|].
    cbn [map] in H. rewrite ascending_cons in H.
    apply andb_true_iff in H. destruct H as [H _]. now apply Z.leb_le in H.
Qed.

(** The order of the design: the ranks never go down. *)
Lemma sort_by_rank_ascending (fs : list format) :
  ascending (map rank (sort_by_rank fs)) = true.
Proof.
  unfold sort_by_rank. induction fs as [|f fs IH]; [reflexivity|].
  simpl. now apply insert_by_rank_ascending.
Qed.

(** A code outside the fixed order has the sentinel rank. *)
Lemma qualities_unknown (ids : list string) (q : string) :
  ~ In q ids -> qualities ids q = (-1)%Z.
Proof.
  unfold qualities. generalize 0%Z.
  induction ids as [|x ids IH]; intros i H; simpl; [reflexivity|].
  destruct (String.eqb_spec x q) as [->|].
  - exfalso; apply H; now left.
  - apply IH. intros Hin; apply H; now right.
Qed.

(** ** Video resolution *)

Section VideoProperties.

Variable date : Type.
Variable fromisoformat_date : json -> result date.
Variable py_str : json -> string.
Variable _sort_formats : list format -> result (list format).
Variable _download_json : string -> string -> result json.

(** C2, what the code does. With the sort of the design, ascending by
    rank and stable, the formats a resolution returns are the formats of
    the streams in the order of the streams: no format carries a rank, and
    the sort moves none. *)
Theorem C2_formats_in_stream_order (video_id : string) (info attributes : json)
        (streams : list json) (r : video_record date) :
  video_of_info date fromisoformat_date py_str sort_formats_by_rank
                video_id info = Ok r ->
  attributes_of info = Ok attributes ->
  streams_of attributes = Ok streams ->
  mapM (stream_format py_str) streams = Ok (formats r).
Proof.
  unfold video_of_info, attributes_of, streams_of.
  intros H Ha Hs.
  destruct (getitem info "data") as [data|]; cbn [bind] in *; [|discriminate].
  rewrite Ha in H; cbn [bind] in H.
  destruct (getitem attributes "rights") as [rights|];
    cbn [bind] in H; [|discriminate].
  destruct (getitem rights "begin") as [b|]; cbn [bind] in H; [|discriminate].
  destruct (fromisoformat_date b) as [d|]; cbn [bind] in H; [|discriminate].
  destruct (getitem attributes "streams") as [ss|];
    cbn [bind] in *; [|discriminate].
  rewrite Hs in H; cbn [bind] in H.
  destruct (mapM (stream_format py_str) streams) as [fs|] eqn:Hfs;
    cbn [bind] in H; [|discriminate].
  unfold sort_formats_by_rank in H; cbn [bind] in H.
  rewrite (stream_formats_sorted _ _ _ Hfs) in H.
  destruct (getitem attributes "metadata") as [m|];
    cbn [bind] in H; [|discriminate].
  destruct (getitem m "providerId"); cbn [bind] in H; [|discriminate].
  destruct (getitem m "title"); cbn [bind] in H; [|discriminate].
  destruct (getitem m "description"); cbn [bind] in H; [|discriminate].
  destruct (getitem m "images") as [imgs|]; cbn [bind] in H; [|discriminate].
  destruct (getindex imgs 0) as [img|]; cbn [bind] in H; [|discriminate].
  destruct (getitem img "url"); cbn [bind] in H; [|discriminate].
  inversion H; reflexivity.
Qed.

(** C5. Whatever document the fetch returns, when it has no
    data-attributes object the resolution raises, and the error is a
    lookup error, the malformed response of the design: nothing catches
    it, it is the outcome of the resolution. *)
Theorem C5_missing_attributes_raises (lang video_id : string) (info : json) :
  _download_json (config_url lang video_id) video_id = Ok info ->
  has_attributes info = false ->
  exists e, resolve_video date fromisoformat_date py_str _sort_formats
              _download_json lang video_id = Err e
            /\ MalformedResponse e.
Proof.
  unfold resolve_video, config_url, has_attributes, attributes_of,
    MalformedResponse.
  intros Hd Hn. rewrite Hd; cbn [bind]. unfold video_of_info.
  destruct (getitem info "data") as [data|e] eqn:E0; cbn [bind] in *.
  - destruct (getitem data "attributes") as [a|e] eqn:E1; cbn [bind].
    + destruct a; try discriminate; cbn [getitem bind];
        exists TypeError; split; reflexivity.
    + exists e; split; [reflexivity | eapply getitem_error; eassumption].
  - exists e; split; [reflexivity | eapply getitem_error; eassumption].
Qed.

(** C10, as the code has it. When one of [rights.begin],
    [metadata.providerId], [metadata.title], [metadata.description] and the
    first image is missing from the attributes, the resolution raises and
    returns no record; the error is a lookup error, unless reading the date
    of [rights.begin] of this document, or sorting the formats made from
    the streams of this document, has raised before the missing field is
    looked up. *)
Theorem C10_required_fields (video_id : string) (info attributes : json) :
  attributes_of info = Ok attributes ->
  required_present attributes = false ->
  exists e, video_of_info date fromisoformat_date py_str _sort_formats
                          video_id info = Err e
            /\ (lookup_error e = true
                \/ (exists b, begin_of attributes = Ok b
                              /\ fromisoformat_date b = Err e)
                \/ (exists ss fs,
                       streams_of attributes = Ok ss
                       /\ mapM (stream_format py_str) ss = Ok fs
                       /\ _sort_formats fs = Err e)).
Proof.
  unfold video_of_info, attributes_of, required_present, begin_of,
    first_image, metadata_field.
  intros Ha Hr.
  destruct (getitem info "data") as [data|]; cbn [bind] in *; [|discriminate].
  rewrite Ha; cbn [bind].
  (* rights, begin *)
  do 2 lookup_step.
  destruct (fromisoformat_date _) as [d|e] eqn:Ed; cbn [bind];
    [| exists e; split; [reflexivity | right; left; eauto]].
  (* streams, and the loop over them *)
  do 2 lookup_step.
  destruct (mapM (stream_format py_str) _) as [fs|e] eqn:Ef; cbn [bind].
  2:{ exists e; split; [reflexivity | left].
      destruct (mapM_error _ _ _ Ef) as (a & _ & Hs).
      eapply stream_format_error; eassumption. }
  destruct (_sort_formats fs) as [sorted|e] eqn:Es; cbn [bind].
  2:{ exists e; split; [reflexivity | right; right].
      match goal with
      | E1 : getitem attributes "streams" = Ok ?s,
        E2 : py_iter ?s = Ok ?ss |- _ =>
          exists ss, fs; repeat split; try assumption;
          unfold streams_of; rewrite E1; exact E2
      end. }
  (* metadata, providerId, title, description, images, the first image *)
  do 6 lookup_step.
  discriminate.
Qed.

End VideoProperties.

Lemma C2_formats_in_stream_order_witness :
  mapM (stream_format str_of) streams_SQ_MQ = Ok (formats video_SQ_MQ).
Proof.
  apply (C2_formats_in_stream_order string iso_date str_of "088501-000-A"
           doc_SQ_MQ
           (config_attributes "2019-06-28T03:00:00+00:00" streams_SQ_MQ
                              full_metadata)
           streams_SQ_MQ video_SQ_MQ); reflexivity.
Defined.

(** The streams of [doc_SQ_MQ] come with the codes SQ and MQ, of ranks 3
    and 0 in the order MQ, HQ, EQ, SQ, and the record keeps them in this
    order: its formats are not in ascending order of rank. *)
Lemma streams_SQ_MQ_not_ascending :
  video_of_info string iso_date str_of sort_formats_by_rank "088501-000-A"
                doc_SQ_MQ = Ok video_SQ_MQ
  /\ map format_note (formats video_SQ_MQ) = ["SQ, 720p"; "MQ, 216p"]
  /\ map (fun s => qualities ["MQ"; "HQ"; "EQ"; "SQ"] (stream_code s))
         streams_SQ_MQ = [3%Z; 0%Z]
  /\ ascending [3%Z; 0%Z] = false.
Proof. repeat split; vm_compute; reflexivity. Qed.

Lemma C5_missing_attributes_raises_witness :
  exists e, resolve_video string iso_date str_of sort_formats_by_rank
              (fun _ _ => Ok (JObj [("data", JObj [("id", JStr "x")])]))
              "en" "088501-000-A" = Err e
            /\ MalformedResponse e.
Proof.
  apply (C5_missing_attributes_raises string iso_date str_of
           sort_formats_by_rank
           (fun _ _ => Ok (JObj [("data", JObj [("id", JStr "x")])]))
           "en" "088501-000-A"
           (JObj [("data", JObj [("id", JStr "x")])])); reflexivity.
Defined.

Lemma C10_required_fields_witness :
  exists e,
    video_of_info string iso_date str_of sort_formats_by_rank "088501-000-A"
      (config_doc "2019-06-28T03:00:00+00:00" streams_SQ_MQ metadata_no_images)
    = Err e
    /\ (lookup_error e = true
        \/ (exists b,
               begin_of (config_attributes "2019-06-28T03:00:00+00:00"
                           streams_SQ_MQ metadata_no_images) = Ok b
               /\ iso_date b = Err e)
        \/ (exists ss fs,
               streams_of (config_attributes "2019-06-28T03:00:00+00:00"
                             streams_SQ_MQ metadata_no_images) = Ok ss
               /\ mapM (stream_format str_of) ss = Ok fs
               /\ sort_formats_by_rank fs = Err e)).
Proof.
  apply (C10_required_fields string iso_date str_of sort_formats_by_rank
           "088501-000-A"
           (config_doc "2019-06-28T03:00:00+00:00" streams_SQ_MQ
                       metadata_no_images)); reflexivity.
Defined.

(** C10, as it is worded, fails: in a document that lacks the title and
    whose [rights.begin] is no ISO timestamp, the resolution raises the
    [ValueError] of the date, which is no lookup error. *)
Lemma C10_counterexample :
  attributes_of doc_no_title_bad_date
  = Ok (config_attributes "28/06/2019" streams_SQ_MQ metadata_no_title)
  /\ required_present
       (config_attributes "28/06/2019" streams_SQ_MQ metadata_no_title) = false
  /\ video_of_info string iso_date str_of sort_formats_by_rank "088501-000-A"
                   doc_no_title_bad_date
     = Err ValueError
  /\ lookup_error ValueError = false.
Proof. repeat split; vm_compute; reflexivity. Qed.

(** ** The configuration endpoint is a Video URL *)

Lemma config_url_match (lang id : string) :
  In lang languages -> is_arte_id id = true ->
  re_match ArteTVIE._VALID_URL (config_url lang id)
  = Some ([("id", id); ("lang_2", lang)], EmptyString).
Proof.
  intros Hl Hid.
  arte_id_chars Hid id.
  all: unfold re_match, config_url; simpl in Hl;
       decompose [or] Hl; subst; try contradiction; simpl;
       rewrite ?D, ?D0, ?D1, ?D2, ?D3, ?D4, ?D5, ?D6, ?D7; simpl;
       rewrite ?D, ?D0, ?D1, ?D2, ?D3, ?D4, ?D5, ?D6, ?D7; reflexivity.
Qed.

(** ** Embedded players *)

Section EmbedProperties.

Variable date : Type.
Variable fromisoformat_date : json -> result date.
Variable py_str : json -> string.
Variable _sort_formats : list format -> result (list format).
Variable _download_json : string -> string -> result json.
Variable parse_qs_query : string -> list (string * list string).

(** C9. For an Embed URL whose [json_url] parameter is a Video URL, the
    configuration endpoint of the video [X] in the language [lang], the
    extractor returns a reference to that URL that names [X], and
    resolving the reference gives what the resolution of [X] itself
    gives. *)
Theorem C9_embed_delegates (url json_url lang X rest : string)
        (caps : captures) (more : list string) :
  Embed_suitable url = true ->
  assoc "json_url" (parse_qs_query url) = Some (json_url :: more) ->
  re_match ArteTVIE._VALID_URL json_url = Some (caps, rest) ->
  group caps "id" = Some X ->
  or_str (group caps "lang") (group caps "lang_2") = Some lang ->
  exists r,
    ArteTVEmbedIE_real_extract parse_qs_query url = Ok r
    /\ ref_url r = json_url
    /\ ref_id r = Some X
    /\ delegate date fromisoformat_date py_str _sort_formats _download_json r
       = resolve_video date fromisoformat_date py_str _sort_formats
                       _download_json lang X.
Proof.
  intros _ Hq M Hid Hlang.
  unfold ArteTVEmbedIE_real_extract. rewrite Hq. cbn [bind].
  unfold _match_id. rewrite M, Hid. cbn [bind].
  eexists; split; [reflexivity|]. repeat split.
  unfold delegate, ArteTVIE_real_extract, url_result. cbn [ref_url].
  rewrite M, Hid, Hlang. reflexivity.
Qed.

(** The same for the endpoint [config_url lang X] of every language and
    every identifier. *)
Lemma embed_of_config_endpoint (url lang X : string) (more : list string) :
  In lang languages ->
  is_arte_id X = true ->
  assoc "json_url" (parse_qs_query url) = Some (config_url lang X :: more) ->
  exists r,
    ArteTVEmbedIE_real_extract parse_qs_query url = Ok r
    /\ ref_id r = Some X
    /\ delegate date fromisoformat_date py_str _sort_formats _download_json r
       = resolve_video date fromisoformat_date py_str _sort_formats
                       _download_json lang X.
Proof.
  intros Hl Hid Hq.
  pose proof (config_url_match _ _ Hl Hid) as M.
  unfold ArteTVEmbedIE_real_extract. rewrite Hq. cbn [bind].
  unfold _match_id. rewrite M. cbn [group String.eqb Ascii.eqb Bool.eqb bind].
  eexists; split; [reflexivity|]. split; [reflexivity|].
  unfold delegate, ArteTVIE_real_extract, url_result. cbn [ref_url].
  rewrite M. cbn.
  destruct lang as [|c lang];
    [simpl in Hl; decompose [or] Hl; try discriminate; contradiction|].
  reflexivity.
Qed.

End EmbedProperties.

Lemma C9_embed_delegates_witness :
  exists r,
    ArteTVEmbedIE_real_extract parse_qs_of_test test_embed_url = Ok r
    /\ ref_url r = "https://api.arte.tv/api/player/v2/config/de/100605-013-A"
    /\ ref_id r = Some "100605-013-A"
    /\ delegate string iso_date str_of sort_formats_by_rank
                (fun _ _ => Ok doc_SQ_MQ) r
       = resolve_video string iso_date str_of sort_formats_by_rank
                       (fun _ _ => Ok doc_SQ_MQ) "de" "100605-013-A".
Proof.
  apply (C9_embed_delegates string iso_date str_of sort_formats_by_rank
           (fun _ _ => Ok doc_SQ_MQ) parse_qs_of_test test_embed_url
           "https://api.arte.tv/api/player/v2/config/de/100605-013-A"
           "de" "100605-013-A" EmptyString
           [("id", "100605-013-A"); ("lang_2", "de")]
           []);
    vm_compute; reflexivity.
Defined.

(** ** Playlists *)

Section PlaylistProperties.

Variable url_or_none : json -> option string.
Variable int_or_none : json -> option Z.
Variable try_get_str : json -> (json -> result json) -> json.

Lemma nonempty_Some (o : option string) :
  nonempty o = true -> exists u, o = Some u.
Proof. destruct o as [u|]; [eauto | discriminate]. Qed.

Lemma playlist_entry_url (video : json) :
  option_map entry_url
    (playlist_entry_of url_or_none int_or_none try_get_str video)
  = target_url url_or_none video.
Proof.
  destruct video; try reflexivity.
  unfold playlist_entry_of, target_url, or_str.
  destruct (nonempty (url_or_none (dict_get l "url"))) eqn:E1.
  - rewrite E1. destruct (nonempty_Some _ E1) as (u & ->). reflexivity.
  - destruct (nonempty (url_or_none (dict_get l "jsonUrl"))) eqn:E2;
      [|reflexivity].
    destruct (nonempty_Some _ E2) as (u & ->). reflexivity.
Qed.

Lemma target_url_valid (video : json) :
  target_url url_or_none video = None <-> has_valid_url url_or_none video = false.
Proof.
  destruct video; simpl; try tauto.
  destruct (nonempty (url_or_none (dict_get l "url"))) eqn:E1; simpl.
  - destruct (nonempty_Some _ E1) as (u & ->). split; discriminate.
  - destruct (nonempty (url_or_none (dict_get l "jsonUrl"))) eqn:E2.
    + destruct (nonempty_Some _ E2) as (u & ->). split; discriminate.
    + tauto.
Qed.


End PlaylistProperties.

(** ** Category pages *)

Lemma collect_items_not_url (url : string) (ms : list match_obj) (v : string) :
  In v (collect_items url ms) -> v <> url.
Proof.
  induction ms as [|[caps rest] ms IH]; simpl; [tauto|].
  destruct (group caps "url") as [video|]; [|assumption].
  destruct (String.eqb_spec video url) as [->|Hne]; [assumption|].
  match goal with
  | |- context [if ?b then _ :: _ else _] => destruct b; [|assumption]
  end.
  intros [<-|H]; [assumption | now apply IH].
Qed.

Lemma collect_items_suitable (url : string) (ms : list match_obj) (v : string) :
  In v (collect_items url ms) ->
  Video_suitable v || Playlist_suitable v = true.
Proof.
  induction ms as [|[caps rest] ms IH]; simpl; [tauto|].
  destruct (group caps "url") as [video|]; [|assumption].
  destruct (String.eqb video url); [assumption|].
  destruct (Video_suitable video || (Playlist_suitable video || false)) eqn:E;
    [|assumption].
  intros [<-|H]; [|now apply IH].
  now rewrite orb_false_r in E.
Qed.

Section CategoryProperties.

Variable _download_webpage : string -> string -> result string.
Variable _og_search_title : string -> option string.
Variable _og_search_description : string -> option string.
Variable _html_search_regex : regex -> result (option string).
Variable _generic_title : string -> string.

(** C7. When no link of the page is kept, the extraction returns [None],
    and so no playlist, not even one without entries. *)
Theorem C7_no_candidates_no_result (url lang playlist_id webpage rest : string)
        (caps : captures) :
  re_match ArteTVCategoryIE._VALID_URL url = Some (caps, rest) ->
  group caps "lang" = Some lang ->
  group caps "id" = Some playlist_id ->
  _download_webpage url playlist_id = Ok webpage ->
  page_items lang url webpage = [] ->
  ArteTVCategoryIE_real_extract _download_webpage _og_search_title
    _og_search_description _html_search_regex _generic_title url = Ok None
  /\ forall p,
       ArteTVCategoryIE_real_extract _download_webpage _og_search_title
         _og_search_description _html_search_regex _generic_title url
       <> Ok (Some p).
Proof.
  intros M Hl Hi Hd Hp.
  assert (E : ArteTVCategoryIE_real_extract _download_webpage _og_search_title
                _og_search_description _html_search_regex _generic_title url
              = Ok None).
  { unfold ArteTVCategoryIE_real_extract.
    rewrite M, Hl, Hi, Hd; cbn [bind]. rewrite Hp. reflexivity. }
  split; [assumption|]. intros p. rewrite E. discriminate.
Qed.

(** C8. The URL of the page is the URL of none of the entries of the
    playlist a category page gives. *)
Theorem C8_page_not_in_entries (url : string) (p : playlist_info url_ref) :
  ArteTVCategoryIE_real_extract _download_webpage _og_search_title
    _og_search_description _html_search_regex _generic_title url
  = Ok (Some p) ->
  ~ In url (map ref_url (pl_entries p)).
Proof.
  unfold ArteTVCategoryIE_real_extract. intros H.
  destruct (re_match _ url) as [[caps rest]|]; [|discriminate].
  destruct (group caps "lang") as [lang|]; [|discriminate].
  destruct (group caps "id") as [pid|]; [|discriminate].
  destruct (_download_webpage url pid) as [webpage|]; cbn [bind] in H;
    [|discriminate].
  destruct (page_items lang url webpage) as [|i items] eqn:Hi; [discriminate|].
  destruct (category_title _ _ _) as [title|]; cbn [bind] in H; [|discriminate].
  assert (Hp : pl_entries p = map (fun m => url_result m None None) (i :: items)).
  { destruct (nonempty _) in H; inversion H; reflexivity. }
  rewrite Hp, map_map. cbn [url_result ref_url]. rewrite map_id.
  intros Hin. rewrite <- Hi in Hin.
  exact (collect_items_not_url _ _ _ Hin eq_refl).
Qed.

(** C4, as the code has it. With links kept, the title is taken from the
    Open Graph title when there is a non-empty one, else from what the
    [<title>] search returns; that text is cut in front of its last [|] and
    stripped, and when nothing is left the generic title stands in. *)
Theorem C4_category_title (url lang playlist_id webpage rest t : string)
        (caps : captures) :
  re_match ArteTVCategoryIE._VALID_URL url = Some (caps, rest) ->
  group caps "lang" = Some lang ->
  group caps "id" = Some playlist_id ->
  _download_webpage url playlist_id = Ok webpage ->
  page_items lang url webpage <> [] ->
  (if nonempty (_og_search_title webpage)
   then Ok (_og_search_title webpage)
   else _html_search_regex title_pattern) = Ok (Some t) ->
  exists p,
    ArteTVCategoryIE_real_extract _download_webpage _og_search_title
      _og_search_description _html_search_regex _generic_title url
    = Ok (Some p)
    /\ pl_title p
       = JStr (if String.eqb (strip (rsplit1_head "|" t)) EmptyString
               then _generic_title url
               else strip (rsplit1_head "|" t)).
Proof.
  intros M Hl Hi Hd Hp Ht.
  unfold ArteTVCategoryIE_real_extract.
  rewrite M, Hl, Hi, Hd; cbn [bind].
  destruct (page_items lang url webpage) as [|i items]; [contradiction|].
  unfold category_title. rewrite Ht; cbn [bind].
  unfold strip_or_none, nonempty.
  destruct (String.eqb (strip (rsplit1_head "|" t)) EmptyString);
    cbn [negb bind];
    destruct (_og_search_description webpage) as [d|];
    [destruct (negb (String.eqb d EmptyString))| |
     destruct (negb (String.eqb d EmptyString))| ];
    eexists; split; reflexivity.
Qed.

End CategoryProperties.

Lemma C7_no_candidates_no_result_witness :
  ArteTVCategoryIE_real_extract
    (fun _ _ => Ok page_without_videos) (fun _ => Some "Politics and society")
    (fun _ => None) (fun _ => Err TypeError) (fun _ => "politics-and-society")
    category_url = Ok None
  /\ forall p,
       ArteTVCategoryIE_real_extract
         (fun _ _ => Ok page_without_videos)
         (fun _ => Some "Politics and society")
         (fun _ => None) (fun _ => Err TypeError)
         (fun _ => "politics-and-society") category_url
       <> Ok (Some p).
Proof.
  apply (C7_no_candidates_no_result
           (fun _ _ => Ok page_without_videos)
           (fun _ => Some "Politics and society")
           (fun _ => None) (fun _ => Err TypeError)
           (fun _ => "politics-and-society")
           category_url "en" "politics-and-society" page_without_videos
           EmptyString [("id", "politics-and-society"); ("lang", "en")]);
    vm_compute; reflexivity.
Defined.

Lemma C8_page_not_in_entries_witness :
  page_items "en" category_url category_page
  = map ref_url (pl_entries (category_playlist "Politics and society"))
  /\ ~ In category_url
       (map ref_url (pl_entries (category_playlist "Politics and society"))).
Proof.
  split; [vm_compute; reflexivity|].
  apply (C8_page_not_in_entries
           (fun _ _ => Ok category_page)
           (fun _ => Some "Politics and society | ARTE")
           (fun _ => None) (fun _ => Err TypeError)
           (fun _ => "politics-and-society")
           category_url (category_playlist "Politics and society")).
  vm_compute; reflexivity.
Defined.

Lemma C4_category_title_witness :
  exists p,
    ArteTVCategoryIE_real_extract
      (fun _ _ => Ok category_page)
      (fun _ => Some "Politics and society | ARTE")
      (fun _ => None) (fun _ => Err TypeError)
      (fun _ => "politics-and-society") category_url
    = Ok (Some p)
    /\ pl_title p
       = JStr (if String.eqb
                    (strip (rsplit1_head "|" "Politics and society | ARTE"))
                    EmptyString
               then "politics-and-society"
               else strip (rsplit1_head "|" "Politics and society | ARTE")).
Proof.
  apply (C4_category_title
           (fun _ _ => Ok category_page)
           (fun _ => Some "Politics and society | ARTE")
           (fun _ => None) (fun _ => Err TypeError)
           (fun _ => "politics-and-society")
           category_url "en" "politics-and-society" category_page
           EmptyString "Politics and society | ARTE"
           [("id", "politics-and-society"); ("lang", "en")]);
    try (vm_compute; reflexivity).
  vm_compute; discriminate.
Defined.

(** C4, as it is worded, fails: an Open Graph title with two bars is the
    first non-empty value of the precedence, and cut at its first bar it
    would be its first part; the title the code gives is neither, it is
    the text in front of the last bar. *)
Lemma C4_counterexample :
  ArteTVCategoryIE_real_extract
    (fun _ _ => Ok category_page)
    (fun _ => Some "Politics and society | Documentaries | ARTE")
    (fun _ => None) (fun _ => Err TypeError)
    (fun _ => "politics-and-society") category_url
  = Ok (Some (category_playlist "Politics and society | Documentaries"))
  /\ title_by_precedence
       (Some "Politics and society | Documentaries | ARTE") None
       "politics-and-society"
     = "Politics and society | Documentaries | ARTE"
  /\ strip (split1_head "|" "Politics and society | Documentaries | ARTE")
     = "Politics and society".
Proof. repeat split; vm_compute; reflexivity. Qed.


(** The playlist of [collection_doc]: the entry without a valid url and
    the stray string are passed over, the two others are kept. *)
Lemma C6_playlist_aggregation_example :
  exists p,
    playlist_of_collection url_shaped int_of try_get_string "RC-016954"
                           collection_doc = Ok p
    /\ map entry_url (pl_entries p)
       = [ "https://www.arte.tv/en/videos/088501-000-A/x/";
           "https://api.arte.tv/api/player/v2/config/en/100605-013-A" ]
    /\ pl_title p = JStr "Earn a Living"
    /\ pl_description p = JStr "Work in the 21st century".
Proof. eexists; repeat split; vm_compute; reflexivity. Qed.

(** * More of arte.py *)

(** ** The matcher finds matches only *)

Lemma append_empty_r (s : string) : s ++ EmptyString = s.
Proof. induction s as [|c s IH]; simpl; [reflexivity | now rewrite IH]. Qed.

Lemma last_char_app (w1 w2 : string) (d : option ascii) :
  last_char (w1 ++ w2) d = last_char w2 (last_char w1 d).
Proof.
  revert d; induction w1 as [|c w1 IH]; intros d; simpl; [reflexivity|].
  apply IH.
Qed.

Lemma take_app (w t : string) : take (String.length w) (w ++ t) = w.
Proof. induction w as [|c w IH]; simpl; [now destruct t | now rewrite IH]. Qed.

Lemma consumed_app (w rest : string) : consumed (w ++ rest) rest = w.
Proof.
  unfold consumed. rewrite length_app.
  replace (String.length w + String.length rest - String.length rest)
    with (String.length w) by lia.
  apply take_app.
Qed.

Lemma mt_sound {R : Type} (r : regex) :
  forall prev s caps (k : cont R) v,
    mt r prev s caps k = Some v ->
    exists w rest caps',
      s = w ++ rest
      /\ matched r prev caps w rest caps'
      /\ k (last_char w prev) rest caps' = Some v.
Proof.
  induction r as [ | a | f | a IHa b IHb | a IHa b IHb | g a IHa | n a IHa
                   | n | | ]; intros prev s caps k v H; simpl in H.
  - exists EmptyString, s, caps. repeat split; [constructor | assumption].
  - destruct s as [|c s]; [discriminate|].
    destruct (Ascii.eqb_spec a c) as [->|]; [|discriminate].
    exists (String c EmptyString), s, caps.
    repeat split; [constructor | assumption].
  - destruct s as [|c s]; [discriminate|].
    destruct (f c) eqn:Hf; [|discriminate].
    exists (String c EmptyString), s, caps.
    repeat split; [now constructor | assumption].
  - destruct (IHa _ _ _ _ _ H) as (w1 & r1 & c1 & -> & M1 & K1).
    destruct (IHb _ _ _ _ _ K1) as (w2 & r2 & c2 & -> & M2 & K2).
    exists (w1 ++ w2), r2, c2. repeat split.
    + now rewrite append_assoc.
    + econstructor; eassumption.
    + now rewrite last_char_app.
  - apply orelse_Some in H. destruct H as [H|H].
    + destruct (IHa _ _ _ _ _ H) as (w & r & c & -> & M & K).
      exists w, r, c. repeat split; [now apply M_AltL | assumption].
    + destruct (IHb _ _ _ _ _ H) as (w & r & c & -> & M & K).
      exists w, r, c. repeat split; [now apply M_AltR | assumption].
  - remember (String.length s) as fuel eqn:Hfuel. clear Hfuel.
    revert prev s caps H.
    induction fuel as [|fuel IHf]; intros prev s caps H.
    + exists EmptyString, s, caps. repeat split; [constructor | assumption].
    + assert (Hcases :
        mt a prev s caps
           (fun p' s' c' =>
              if Nat.ltb (String.length s') (String.length s)
              then (fix loop (fuel : nat) (prev : option ascii) (s : string)
                        (caps : captures) {struct fuel} : option R :=
                      match fuel with
                      | O => k prev s caps
                      | S fuel' =>
                          let again :=
                            mt a prev s caps
                               (fun p' s' c' =>
                                  if Nat.ltb (String.length s') (String.length s)
                                  then loop fuel' p' s' c' else None) in
                          if g then orelse again (k prev s caps)
                          else orelse (k prev s caps) again
                      end) fuel p' s' c'
              else None) = Some v
        \/ k prev s caps = Some v).
      { destruct g; apply orelse_Some in H; tauto. }
      clear H. destruct Hcases as [H|H].
      * destruct (IHa _ _ _ _ _ H) as (w1 & r1 & c1 & -> & M1 & K1).
        destruct (Nat.ltb_spec (String.length r1) (String.length (w1 ++ r1)))
          as [L|L]; [|discriminate].
        destruct (IHf _ _ _ K1) as (w2 & r2 & c2 & -> & M2 & K2).
        exists (w1 ++ w2), r2, c2. repeat split.
        -- now rewrite append_assoc.
        -- eapply M_StarS; try eassumption.
           intros ->. simpl in L. lia.
        -- now rewrite last_char_app.
      * exists EmptyString, s, caps. repeat split; [constructor | assumption].
  - destruct (IHa _ _ _ _ _ H) as (w & r & c & -> & M & K).
    rewrite consumed_app in K.
    exists w, r, ((n, w) :: c). repeat split; [now constructor | assumption].
  - destruct (group caps n) as [v'|] eqn:G; [|discriminate].
    destruct (strip_prefix v' s) as [s'|] eqn:P; [|discriminate].
    apply strip_prefix_Some in P. subst s.
    exists v', s', caps. repeat split; [now constructor | assumption].
  - destruct (xorb _ _) eqn:X; [|discriminate].
    exists EmptyString, s, caps. repeat split; [now constructor | assumption].
  - destruct (at_end s) eqn:X; [|discriminate].
    exists EmptyString, s, caps. repeat split; [now constructor | assumption].
Qed.

Lemma re_match_matched (r : regex) (s rest : string) (caps : captures) :
  re_match r s = Some (caps, rest) ->
  exists w, s = w ++ rest /\ matched r None [] w rest caps.
Proof.
  unfold re_match. intros H.
  destruct (mt_sound _ _ _ _ _ _ H) as (w & rest' & caps' & -> & M & K).
  inversion K; subst. now exists w.
Qed.

(** ** The matcher finds a match when there is one *)

Lemma mt_Star_loop {R : Type} (g : bool) (a : regex) prev s caps (k : cont R) :
  mt (Star g a) prev s caps k
  = star_loop (fun p s' c k' => mt a p s' c k') g k (String.length s) prev s caps.
Proof. reflexivity. Qed.

Lemma orelse_Some_r {A : Type} (x : option A) (v : A) :
  exists v', orelse x (Some v) = Some v'.
Proof. destruct x; simpl; eauto. Qed.

Lemma orelse_Some_l {A : Type} (y : option A) (v : A) :
  orelse (Some v) y = Some v.
Proof. reflexivity. Qed.

Lemma mt_complete_gen r prev caps w rest caps' :
  matched r prev caps w rest caps' ->
  (forall (R : Type) (k : cont R) (v : R),
      k (last_char w prev) rest caps' = Some v ->
      exists v', mt r prev (w ++ rest) caps k = Some v')
  /\ (forall g a, r = Star g a ->
      forall (R : Type) (k : cont R) (v : R) (fuel : nat),
        (String.length (w ++ rest) <= fuel)%nat ->
        k (last_char w prev) rest caps' = Some v ->
        exists v',
          star_loop (fun p s' c k' => mt a p s' c k') g k fuel prev
                    (w ++ rest) caps = Some v').
Proof.
  induction 1.
  - split; [|discriminate]. intros R k v K. simpl. eauto.
  - split; [|discriminate]. intros R k v K. simpl.
    rewrite Ascii.eqb_refl. eauto.
  - split; [|discriminate]. intros R k v K. simpl.
    rewrite H. eauto.
  - split; [|discriminate]. intros R k v K.
    destruct IHmatched1 as [IH1 _]. destruct IHmatched2 as [IH2 _].
    rewrite last_char_app in K.
    destruct (IH2 _ k v K) as (v2 & E2).
    rewrite append_assoc. simpl.
    apply (IH1 _ (fun p' s' c' => mt b p' s' c' k) v2). exact E2.
  - split; [|discriminate]. intros R k v K.
    destruct IHmatched as [IH _].
    destruct (IH _ k v K) as (v1 & E1). simpl. rewrite E1. simpl. eauto.
  - split; [|discriminate]. intros R k v K.
    destruct IHmatched as [IH _].
    destruct (IH _ k v K) as (v1 & E1). simpl. rewrite E1.
    apply orelse_Some_r.
  - assert (L : forall (R : Type) (k : cont R) (v : R) (fuel : nat),
               k prev rest caps = Some v ->
               exists v',
                 star_loop (fun p s' c k' => mt a p s' c k') g k fuel prev
                           rest caps = Some v').
    { intros R k v fuel K. destruct fuel as [|fuel]; simpl; [eauto|].
      rewrite K. destruct g; [apply orelse_Some_r | simpl; eauto]. }
    split.
    + intros R k v K. rewrite mt_Star_loop. simpl in *. eapply L; eassumption.
    + intros g' a' E R k v fuel _ K. inversion E; subst. simpl in *.
      eapply L; eassumption.
  - destruct IHmatched1 as [IH1 _]. destruct IHmatched2 as [_ IH2].
    assert (L : forall (R : Type) (k : cont R) (v : R) (fuel : nat),
               (String.length ((w1 ++ w2) ++ rest) <= fuel)%nat ->
               k (last_char (w1 ++ w2) prev) rest caps2 = Some v ->
               exists v',
                 star_loop (fun p s' c k' => mt a p s' c k') g k fuel prev
                           ((w1 ++ w2) ++ rest) caps = Some v').
    { intros R k v fuel Hf K.
      assert (Hw1 : (0 < String.length w1)%nat).
      { destruct w1; [contradiction | simpl; lia]. }
      rewrite append_assoc in *. rewrite length_app in Hf.
      destruct fuel as [|fuel]; [lia|].
      rewrite last_char_app in K.
      destruct (IH2 g a eq_refl R k v fuel ltac:(lia) K) as (v2 & E2).
      cbn [star_loop].
      match goal with
      | |- exists v', (if g then orelse ?x ?y else orelse ?y ?x) = Some v' =>
          assert (X : exists vx, x = Some vx)
      end.
      { eapply IH1. cbv beta.
        assert (T : Nat.ltb (String.length (w2 ++ rest))
                            (String.length (w1 ++ w2 ++ rest)) = true)
          by (apply Nat.ltb_lt; rewrite (length_app w1); lia).
        rewrite T. exact E2. }
      destruct X as (vx & ->).
      destruct g; simpl; [eauto|].
      match goal with |- exists v', orelse ?y _ = _ => destruct y end;
        simpl; eauto. }
    split.
    + intros R k v K. rewrite mt_Star_loop. eapply L; [|eassumption]. lia.
    + intros g' a' E R k v fuel Hf K. inversion E; subst.
      eapply L; eassumption.
  - split; [|discriminate]. intros R k v K.
    destruct IHmatched as [IH _]. simpl.
    apply (IH _ (fun p' s' c' =>
                   k p' s' ((n, consumed (w ++ rest) s') :: c')) v).
    now rewrite consumed_app.
  - split; [|discriminate]. intros R k v' K. simpl.
    rewrite H, strip_prefix_app. eauto.
  - split; [|discriminate]. intros R k v K. simpl. rewrite H. eauto.
  - split; [|discriminate]. intros R k v K. simpl. rewrite H. eauto.
Qed.

(** A match the continuation accepts makes the matcher succeed. *)
Lemma mt_complete {R : Type} r prev caps w rest caps' (k : cont R) (v : R) :
  matched r prev caps w rest caps' ->
  k (last_char w prev) rest caps' = Some v ->
  exists v', mt r prev (w ++ rest) caps k = Some v'.
Proof.
  intros M. destruct (mt_complete_gen _ _ _ _ _ _ M) as [C _]. apply C.
Qed.

(** [suitable], in terms of matches: a URL is suitable for a pattern when
    the pattern matches what the URL starts with. *)
Lemma suitable_iff_matched (r : regex) (url : string) :
  suitable r url = true
  <-> exists w rest caps, url = w ++ rest /\ matched r None [] w rest caps.
Proof.
  unfold suitable. split.
  - destruct (re_match r url) as [[caps rest]|] eqn:E; [|discriminate].
    intros _. destruct (re_match_matched _ _ _ _ E) as (w & -> & M). eauto.
  - intros (w & rest & caps & -> & M). unfold re_match.
    destruct (mt_complete _ _ _ _ _ _ (fun _ rest caps => Some (caps, rest))
                          (caps, rest) M eq_refl) as (v' & ->).
    reflexivity.
Qed.

(** Reading a match of a pattern written with [Seqs], [Lit], [Opt] and the
    like: one rule of [matched] at a time, down to the characters. *)
Ltac inv_matched H := inversion H; subst; clear H.

Ltac peel :=
  repeat match goal with
  | H : matched (Seqs _) _ _ _ _ _ |- _ => progress cbn [Seqs] in H
  | H : matched (Lit _) _ _ _ _ _ |- _ => progress cbn [Lit] in H
  | H : matched (Rep _ _) _ _ _ _ _ |- _ => progress cbn [Rep] in H
  | H : matched (Opt _) _ _ _ _ _ |- _ => unfold Opt in H
  | H : matched (Plus _) _ _ _ _ _ |- _ => unfold Plus in H
  | H : matched Digit _ _ _ _ _ |- _ => unfold Digit in H
  | H : matched Space _ _ _ _ _ |- _ => unfold Space in H
  | H : matched WordDash _ _ _ _ _ |- _ => unfold WordDash in H
  | H : matched (OneOf _) _ _ _ _ _ |- _ => unfold OneOf in H
  | H : matched (Seq _ _) _ _ _ _ _ |- _ => inv_matched H
  | H : matched (Alt _ _) _ _ _ _ _ |- _ => inv_matched H
  | H : matched Eps _ _ _ _ _ |- _ => inv_matched H
  | H : matched (Char _) _ _ _ _ _ |- _ => inv_matched H
  | H : matched (Chr _) _ _ _ _ _ |- _ => inv_matched H
  | H : matched (Group _ _) _ _ _ _ _ |- _ => inv_matched H
  | H : matched (Backref _) _ _ _ _ _ |- _ => inv_matched H
  | H : matched WordB _ _ _ _ _ |- _ => inv_matched H
  | H : matched Dollar _ _ _ _ _ |- _ => inv_matched H
  end.

(** A repeated class matches characters of the class and sets no group. *)
Lemma star_class_matched g f prev caps w rest caps' :
  matched (Star g (Chr f)) prev caps w rest caps' ->
  all_chars f w = true /\ caps' = caps.
Proof.
  remember (Star g (Chr f)) as r eqn:Hr. intros M.
  induction M; try discriminate; inversion Hr; subst.
  - split; reflexivity.
  - inv_matched M1. destruct (IHM2 eq_refl) as [A ->].
    split; [|reflexivity]. simpl.
    match goal with E : f _ = true |- _ => now rewrite E, A end.
Qed.

Ltac peel_stars :=
  unfold Digit, Space, Dot, WordDash in *;
  repeat match goal with
         | S : matched (Star _ (Chr _)) _ _ _ _ _ |- _ =>
             apply star_class_matched in S; destruct S as [? ?]; subst
         end.

Lemma languages_matched prev caps w rest caps' :
  matched _ARTE_LANGUAGES prev caps w rest caps' ->
  In w languages /\ caps' = caps.
Proof.
  unfold _ARTE_LANGUAGES. intros H. peel; simpl; tauto.
Qed.

Lemma arte_id_matched prev caps w rest caps' :
  matched arte_id_pattern prev caps w rest caps' ->
  is_arte_id w = true /\ caps' = caps.
Proof.
  unfold arte_id_pattern. intros H. peel. split; [|reflexivity].
  unfold is_arte_id, re_fullmatch, arte_id_pattern. simpl.
  repeat match goal with
         | E : is_digit _ = true |- _ => rewrite E; clear E
         end.
  match goal with E : _ = true |- _ => simpl in E; rewrite E end.
  reflexivity.
Qed.

Lemma playlist_id_matched prev caps w rest caps' :
  matched playlist_id_pattern prev caps w rest caps' ->
  is_playlist_id w = true /\ caps' = caps.
Proof.
  unfold playlist_id_pattern. intros H. peel. split; [|reflexivity].
  unfold is_playlist_id, re_fullmatch, playlist_id_pattern. simpl.
  repeat match goal with
         | E : is_digit _ = true |- _ => rewrite E; clear E
         end.
  reflexivity.
Qed.

Lemma language_nonempty (lang : string) :
  In lang languages -> nonempty (Some lang) = true.
Proof. simpl. intros H. decompose [or] H; subst; try reflexivity; contradiction. Qed.

(** ** What the patterns capture *)

(** A match of the Video pattern sets [id] to an identifier of arte and
    one of [lang], [lang_2] to one of the six languages. *)
Lemma Video_match_groups (url rest : string) (caps : captures) :
  re_match ArteTVIE._VALID_URL url = Some (caps, rest) ->
  exists lang id,
    In lang languages /\ is_arte_id id = true
    /\ group caps "id" = Some id
    /\ or_str (group caps "lang") (group caps "lang_2") = Some lang.
Proof.
  intros H. destruct (re_match_matched _ _ _ _ H) as (w & -> & M).
  unfold ArteTVIE._VALID_URL in M.
  change (Seqs [Rep 6 Digit; Lit "-"; Rep 3 Digit; Lit "-"; OneOf "AF"])
    with arte_id_pattern in M.
  peel.
  all: peel_stars.
  all: repeat match goal with
         | L : matched _ARTE_LANGUAGES _ _ _ _ _ |- _ =>
             apply languages_matched in L; destruct L as [? ?]; subst
         | I : matched arte_id_pattern _ _ _ _ _ |- _ =>
             apply arte_id_matched in I; destruct I as [? ?]; subst
         end.
  all: match goal with
       | L : In ?lang languages, I : is_arte_id ?id = true |- _ =>
           exists lang, id; repeat split; try assumption; try reflexivity;
           cbn [group String.eqb Ascii.eqb Bool.eqb];
           unfold or_str; try rewrite (language_nonempty _ L); reflexivity
       end.
Qed.

Lemma Playlist_match_groups (url rest : string) (caps : captures) :
  re_match ArteTVPlaylistIE._VALID_URL url = Some (caps, rest) ->
  exists lang id,
    In lang languages /\ is_playlist_id id = true
    /\ group caps "lang" = Some lang /\ group caps "id" = Some id.
Proof.
  intros H. destruct (re_match_matched _ _ _ _ H) as (w & -> & M).
  unfold ArteTVPlaylistIE._VALID_URL in M.
  change (Seq (Lit "RC-") (Rep 6 Digit)) with playlist_id_pattern in M.
  peel.
  all: repeat match goal with
         | L : matched _ARTE_LANGUAGES _ _ _ _ _ |- _ =>
             apply languages_matched in L; destruct L as [? ?]; subst
         | I : matched playlist_id_pattern _ _ _ _ _ |- _ =>
             apply playlist_id_matched in I; destruct I as [? ?]; subst
         end.
  all: match goal with
       | L : In ?lang languages, I : is_playlist_id ?id = true |- _ =>
           exists lang, id; repeat split; assumption || reflexivity
       end.
Qed.

(** ** [ArteTVIE._real_extract], from the URL to the record *)

Section VideoExtraction.

Variable date : Type.
Variable fromisoformat_date : json -> result date.
Variable py_str : json -> string.
Variable _sort_formats : list format -> result (list format).
Variable _download_json : string -> string -> result json.

(** X1. On a URL its pattern does not match, the extractor raises
    [AttributeError] and fetches nothing; on every other URL it fetches the
    configuration of one of the six languages and of an identifier of
    arte, at [{apiBase}/config/{lang}/{id}], and the record comes from that
    document alone. *)
Theorem ArteTVIE_extract_cases (url : string) :
  (Video_suitable url = false
   /\ ArteTVIE_real_extract date fromisoformat_date py_str _sort_formats
        _download_json url = Err AttributeError)
  \/ (exists lang id,
         Video_suitable url = true
         /\ In lang languages /\ is_arte_id id = true
         /\ ArteTVIE_real_extract date fromisoformat_date py_str _sort_formats
              _download_json url
            = (info <- _download_json (config_url lang id) id ;;
               video_of_info date fromisoformat_date py_str _sort_formats
                             id info)).
Proof.
  unfold Video_suitable, suitable, ArteTVIE_real_extract.
  destruct (re_match ArteTVIE._VALID_URL url) as [[caps rest]|] eqn:M.
  - right. destruct (Video_match_groups _ _ _ M) as (lang & id & L & I & Gi & Gl).
    exists lang, id. rewrite Gi, Gl. repeat split; assumption.
  - left. split; reflexivity.
Qed.

Lemma mapM_In_error {A B : Type} (f : A -> result B) (l : list A) (a : A) :
  In a l -> is_ok (f a) = false -> is_ok (mapM f l) = false.
Proof.
  induction l as [|x l IH]; simpl; [tauto|].
  intros [->|Hin] Ha.
  - destruct (f a); [discriminate | reflexivity].
  - destruct (f x); cbn [bind]; [|reflexivity].
    specialize (IH Hin Ha). destruct (mapM f l); [discriminate | reflexivity].
Qed.

(** X3. One stream that lacks its quality code, its quality label or its
    url is enough to make the whole resolution raise: the loop over the
    streams passes over nothing.  The error is a lookup error, unless
    reading the date has raised before. *)
Theorem malformed_stream_aborts (vid : string) (info attributes : json)
        (streams : list json) (s : json) :
  attributes_of info = Ok attributes ->
  streams_of attributes = Ok streams ->
  In s streams ->
  is_ok (stream_format py_str s) = false ->
  exists e,
    video_of_info date fromisoformat_date py_str _sort_formats vid info = Err e
    /\ (lookup_error e = true
        \/ exists b, begin_of attributes = Ok b
                     /\ fromisoformat_date b = Err e).
Proof.
  unfold video_of_info, attributes_of, streams_of, begin_of.
  intros Ha Hs Hin Hbad.
  destruct (getitem info "data") as [data|]; cbn [bind] in *; [|discriminate].
  rewrite Ha; cbn [bind].
  do 2 lookup_step.
  destruct (fromisoformat_date _) as [d|e] eqn:Ed; cbn [bind];
    [| exists e; split; [reflexivity | right; eauto]].
  destruct (getitem attributes "streams") as [ss|]; cbn [bind] in *;
    [|discriminate].
  rewrite Hs; cbn [bind].
  pose proof (mapM_In_error _ _ _ Hin Hbad) as Hm.
  destruct (mapM (stream_format py_str) streams) as [fs|e] eqn:Ef;
    [discriminate|]. cbn [bind].
  exists e; split; [reflexivity | left].
  destruct (mapM_error _ _ _ Ef) as (a & _ & Hs').
  eapply stream_format_error; eassumption.
Qed.

End VideoExtraction.

(** ** [ArteTVEmbedIE._real_extract] *)

Section EmbedExtraction.

Variable parse_qs_query : string -> list (string * list string).

(** X4. A reference the Embed extractor returns is the first value of
    [json_url], it is a URL of Video and of no other extractor of arte,
    it names [ArteTVIE], and its id is an identifier of arte: handing it
    over cannot come back to the Embed extractor. *)
Theorem embed_reference_is_video (url : string) (r : url_ref) :
  ArteTVEmbedIE_real_extract parse_qs_query url = Ok r ->
  (exists more,
      assoc "json_url" (parse_qs_query url) = Some (ref_url r :: more))
  /\ Video_suitable (ref_url r) = true
  /\ Embed_suitable (ref_url r) = false
  /\ Playlist_suitable (ref_url r) = false
  /\ Category_suitable (ref_url r) = false
  /\ ref_ie_key r = Some ArteTVIE_ie_key
  /\ exists id, ref_id r = Some id /\ is_arte_id id = true.
Proof.
  unfold ArteTVEmbedIE_real_extract, _match_id.
  destruct (assoc "json_url" (parse_qs_query url)) as [[|j more]|];
    cbn [bind]; try discriminate.
  destruct (re_match ArteTVIE._VALID_URL j) as [[caps rest]|] eqn:M;
    cbn [bind]; [|discriminate].
  destruct (Video_match_groups _ _ _ M) as (lang & id & _ & I & Gi & _).
  rewrite Gi; cbn [bind]. intros H; inversion H; subst; clear H.
  cbn [ref_url ref_ie_key ref_id url_result].
  assert (V : Video_suitable j = true)
    by (unfold Video_suitable, suitable; now rewrite M).
  split; [now exists more|]. split; [assumption|].
  split; [now apply Video_not_Embed|].
  split; [now apply Video_not_Playlist|].
  split; [unfold Category_suitable; simpl; now rewrite V|].
  split; [reflexivity|]. now exists id.
Qed.

End EmbedExtraction.

(** ** [ArteTVPlaylistIE._real_extract] *)

Section PlaylistExtraction.

Variable url_or_none : json -> option string.
Variable int_or_none : json -> option Z.
Variable try_get_str : json -> (json -> result json) -> json.
Variable _download_json : string -> string -> result json.

(** X6. On a URL its pattern does not match, the Playlist extractor
    raises [AttributeError] and fetches nothing; on every other URL it
    fetches the collection of one of the six languages and of an
    identifier [RC-] and six digits, at
    [{apiBase}/collectionData/{lang}/{id}?source=videos]. *)
Theorem ArteTVPlaylistIE_extract_cases (url : string) :
  (Playlist_suitable url = false
   /\ ArteTVPlaylistIE_real_extract url_or_none int_or_none try_get_str
        _download_json url = Err AttributeError)
  \/ (exists lang id,
         Playlist_suitable url = true
         /\ In lang languages /\ is_playlist_id id = true
         /\ ArteTVPlaylistIE_real_extract url_or_none int_or_none try_get_str
              _download_json url
            = (collection <- _download_json (collection_url lang id) id ;;
               playlist_of_collection url_or_none int_or_none try_get_str
                                      id collection)).
Proof.
  unfold Playlist_suitable, suitable, ArteTVPlaylistIE_real_extract.
  destruct (re_match ArteTVPlaylistIE._VALID_URL url) as [[caps rest]|] eqn:M.
  - right.
    destruct (Playlist_match_groups _ _ _ M) as (lang & id & L & I & Gl & Gi).
    exists lang, id. rewrite Gl, Gi. repeat split; assumption.
  - left. split; reflexivity.
Qed.

Lemma keep_some_length {A : Type} (l : list (option A)) :
  (List.length (keep_some l) <= List.length l)%nat.
Proof.
  induction l as [|[a|] l IH]; simpl; lia.
Qed.

Lemma playlist_entry_of_valid (video : json) (e : playlist_entry) :
  playlist_entry_of url_or_none int_or_none try_get_str video = Some e ->
  entry_url e <> EmptyString /\ entry_ie_key e = ArteTVIE_ie_key.
Proof.
  destruct video; simpl; try discriminate.
  destruct (or_str _ _) as [u|] eqn:E; simpl; [|discriminate].
  destruct (String.eqb_spec u EmptyString) as [->|N]; simpl; [discriminate|].
  intros H; inversion H; subst; clear H. simpl. split; [assumption|reflexivity].
Qed.

(** X7. In the playlist of a collection every entry has a url that is
    not empty and names [ArteTVIE]; there are no more entries than
    videos in the collection; and the id of the playlist is the id asked
    for. *)
Theorem playlist_entries_valid (playlist_id : string) (collection : json)
        (p : playlist_info playlist_entry) :
  playlist_of_collection url_or_none int_or_none try_get_str
                         playlist_id collection = Ok p ->
  pl_id p = playlist_id
  /\ Forall (fun e => entry_url e <> EmptyString
                      /\ entry_ie_key e = ArteTVIE_ie_key) (pl_entries p)
  /\ exists videos,
       videos_of collection = Ok videos
       /\ (List.length (pl_entries p) <= List.length videos)%nat.
Proof.
  unfold playlist_of_collection, videos_of.
  destruct (getitem collection "videos") as [vs|]; cbn [bind]; [|discriminate].
  destruct (py_iter vs) as [videos|]; cbn [bind]; [|discriminate].
  destruct collection; try discriminate.
  intros H; inversion H; subst; clear H. cbn.
  split; [reflexivity|]. split.
  - induction videos as [|v videos IH]; simpl; [constructor|].
    destruct (playlist_entry_of url_or_none int_or_none try_get_str v)
      as [e|] eqn:E; [|assumption].
    constructor; [|assumption].
    eapply playlist_entry_of_valid; eassumption.
  - exists videos. split; [reflexivity|].
    rewrite <- (length_map (playlist_entry_of url_or_none int_or_none
                                              try_get_str) videos).
    apply keep_some_length.
Qed.

End PlaylistExtraction.

(** ** [ArteTVCategoryIE._real_extract] *)

Lemma Lit_matched (p : string) prev caps w rest caps' :
  matched (Lit p) prev caps w rest caps' -> w = p /\ caps' = caps.
Proof.
  revert prev caps w rest caps'.
  induction p as [|c p IH]; intros prev caps w rest caps' M; cbn [Lit] in M.
  - inv_matched M. split; reflexivity.
  - inv_matched M.
    match goal with A : matched (Char _) _ _ _ _ _ |- _ => inv_matched A end.
    match goal with B : matched (Lit _) _ _ _ _ _ |- _ =>
      destruct (IH _ _ _ _ _ B) as [-> ->] end.
    split; reflexivity.
Qed.

Lemma finditer_from_found (r : regex) (s : string) :
  forall prev skip m,
    In m (finditer_from r prev s skip) ->
    exists prev' s',
      mt r prev' s' [] (fun _ rest caps => Some (caps, rest)) = Some m.
Proof.
  induction s as [|c s IH]; intros prev skip m; simpl.
  - destruct skip; [|intros []].
    destruct (mt r prev EmptyString [] _) as [m'|] eqn:E; simpl; [|intros []].
    intros [<-|[]]. eauto.
  - destruct skip as [|n]; [|apply IH].
    destruct (mt r prev (String c s) [] _) as [[caps rest]|] eqn:E.
    + intros [<-|H]; [eauto | eapply IH; eassumption].
    + apply IH.
Qed.

Lemma collect_items_found (url : string) (ms : list match_obj) (v : string) :
  In v (collect_items url ms) ->
  exists caps rest, In (caps, rest) ms /\ group caps "url" = Some v.
Proof.
  induction ms as [|[caps rest] ms IH]; simpl; [tauto|].
  destruct (group caps "url") as [video|] eqn:G.
  - destruct (String.eqb video url).
    + intros H. destruct (IH H) as (c & r & Hin & Hg). eauto.
    + match goal with
      | |- context [if ?b then _ :: _ else _] => destruct b
      end.
      * intros [<-|H]; [eauto|].
        destruct (IH H) as (c & r & Hin & Hg). eauto.
      * intros H. destruct (IH H) as (c & r & Hin & Hg). eauto.
  - intros H. destruct (IH H) as (c & r & Hin & Hg). eauto.
Qed.

Ltac peel_lits :=
  repeat match goal with
         | L : matched (Lit _) _ _ ?w _ ?c |- _ =>
             apply Lit_matched in L;
             let E1 := fresh "E" in
             let E2 := fresh "E" in
             destruct L as [E1 E2]; subst w; subst c
         end.

(** The [url] group of the link pattern. *)
Lemma link_url_matched (lang : string) prev caps w rest caps' :
  matched
    (Seqs [ Lit "http"; Opt (Lit "s"); Lit "://www.arte.tv/"; Lit lang;
            Lit "/videos/";
            Plus (Chr (fun c => is_word c || Ascii.eqb c "/"
                                || Ascii.eqb c "-")) ])
    prev caps w rest caps' ->
  exists secure tail,
    w = arte_videos_prefix secure lang ++ tail
    /\ tail <> EmptyString /\ all_chars is_path_char tail = true
    /\ caps' = caps.
Proof.
  intros M. peel. all: peel_stars. all: peel_lits.
  - exists true.
    match goal with C : _ = true, A : all_chars _ ?t = true |- context [String ?c EmptyString ++ ?t] =>
      exists (String c t); repeat split;
      [ unfold arte_videos_prefix; simpl;
        rewrite ?append_empty_r, ?append_assoc; simpl;
        rewrite ?append_empty_r; reflexivity
      | discriminate
      | simpl; unfold is_path_char; rewrite C; exact A ]
    end.
  - exists false.
    match goal with C : _ = true, A : all_chars _ ?t = true |- context [String ?c EmptyString ++ ?t] =>
      exists (String c t); repeat split;
      [ unfold arte_videos_prefix; simpl;
        rewrite ?append_empty_r, ?append_assoc; simpl;
        rewrite ?append_empty_r; reflexivity
      | discriminate
      | simpl; unfold is_path_char; rewrite C; exact A ]
    end.
Qed.

(** A match of an anchor with what [U] matches as its address puts the
    address in the [url] group. *)
Lemma anchor_matched (U : regex) prev w rest caps :
  matched
    (Seqs [ Lit "<a"; WordB;
            Star false (Chr (fun c => negb (Ascii.eqb c ">")));
            Lit "href"; Star true Space; Lit "="; Star true Space;
            Group "q" (Alt (Char dquote) (Alt (Char "'") WordB));
            Group "url" U; Backref "q" ])
    prev [] w rest caps ->
  exists prev' caps0 wu rest' caps1,
    matched U prev' caps0 wu rest' caps1
    /\ caps = ("url", wu) :: caps1.
Proof.
  intros M. peel. all: peel_stars. all: eauto 10.
Qed.

(** What a match of the link pattern holds in its [url] group: an
    address of www.arte.tv in the language of the pattern. *)
Lemma link_pattern_url (lang : string) prev s (caps : captures) rest :
  mt (link_pattern lang) prev s [] (fun _ rest caps => Some (caps, rest))
  = Some (caps, rest) ->
  exists secure tail,
    group caps "url" = Some (arte_videos_prefix secure lang ++ tail)
    /\ tail <> EmptyString /\ all_chars is_path_char tail = true.
Proof.
  intros H.
  destruct (mt_sound _ _ _ _ _ _ H) as (w & rest' & caps' & -> & M & K).
  inversion K; subst; clear K H.
  unfold link_pattern in M.
  apply anchor_matched in M.
  destruct M as (prev' & caps0 & wu & rest0 & caps1 & M & ->).
  apply link_url_matched in M.
  destruct M as (secure & tail & -> & Hne & Hall & ->).
  exists secure, tail. repeat split; assumption.
Qed.

Lemma all_chars_app (f : ascii -> bool) (a b : string) :
  all_chars f (a ++ b) = all_chars f a && all_chars f b.
Proof.
  induction a as [|c a IH]; simpl; [reflexivity|].
  now rewrite IH, andb_assoc.
Qed.

Lemma all_chars_weaken (f g : ascii -> bool) (w : string) :
  (forall c, f c = true -> g c = true) ->
  all_chars f w = true -> all_chars g w = true.
Proof.
  intros Hfg. induction w as [|c w IH]; simpl; [reflexivity|].
  intros H. apply andb_true_iff in H. destruct H as [Hc Hw].
  now rewrite (Hfg _ Hc), IH.
Qed.

Lemma word_dash_path (c : ascii) :
  is_word c || Ascii.eqb c "-" = true -> is_path_char c = true.
Proof.
  unfold is_path_char. intros H.
  apply orb_true_iff in H. destruct H as [->| ->]; [reflexivity|].
  now rewrite !orb_true_r.
Qed.

(** The segments after the first one in the path of a category. *)
Lemma path_segments_matched g prev caps w rest caps' :
  matched (Star g (Seq (Lit "/") (Plus WordDash))) prev caps w rest caps' ->
  all_chars is_path_char w = true /\ caps' = caps.
Proof.
  remember (Star g (Seq (Lit "/") (Plus WordDash))) as r eqn:Hr. intros M.
  induction M; try discriminate; inversion Hr; subst.
  - split; reflexivity.
  - destruct (IHM2 eq_refl) as [A ->]. clear IHM1 IHM2 M2.
    peel. peel_stars.
    split; [|reflexivity].
    rewrite all_chars_app, A, andb_true_r.
    match goal with
    | C : _ = true, S : all_chars _ ?t = true
      |- context [String ?c EmptyString ++ ?t] =>
        change (all_chars is_path_char (String "/" (String c t)) = true);
        cbn [all_chars];
        rewrite (word_dash_path _ C),
          (all_chars_weaken _ _ _ word_dash_path S);
        reflexivity
    end.
Qed.

(** The [id] group of the Category pattern: a path, not empty. *)
Lemma category_path_matched prev caps w rest caps' :
  matched (Seq (Plus WordDash) (Star true (Seq (Lit "/") (Plus WordDash))))
          prev caps w rest caps' ->
  w <> EmptyString /\ all_chars is_path_char w = true /\ caps' = caps.
Proof.
  intros M. inv_matched M.
  match goal with
  | S : matched (Star _ (Seq _ _)) _ _ _ _ _ |- _ =>
      apply path_segments_matched in S; destruct S as [A ->]
  end.
  peel. peel_stars.
  repeat split.
  - discriminate.
  - rewrite all_chars_app, A, andb_true_r.
    match goal with
    | C : _ = true, S : all_chars _ ?t = true
      |- context [String ?c EmptyString ++ ?t] =>
        change (all_chars is_path_char (String c t) = true);
        cbn [all_chars];
        rewrite (word_dash_path _ C),
          (all_chars_weaken _ _ _ word_dash_path S);
        reflexivity
    end.
Qed.

(** A match of a URL of www.arte.tv or arte.tv with [U] as its path. *)
Lemma category_url_matched (U : regex) w rest caps :
  matched
    (Seqs [ Lit "http"; Opt (Lit "s"); Lit "://"; Opt (Lit "www.");
            Lit "arte.tv/"; Group "lang" _ARTE_LANGUAGES; Lit "/videos/";
            Group "id" U; Opt (Lit "/"); Star true Space; Dollar ])
    None [] w rest caps ->
  exists lang id prev' rest' caps1,
    In lang languages
    /\ matched U prev' [("lang", lang)] id rest' caps1
    /\ caps = ("id", id) :: caps1
    /\ at_end rest = true.
Proof.
  intros M. peel. all: peel_stars.
  all: repeat match goal with
         | L : matched _ARTE_LANGUAGES _ _ _ _ _ |- _ =>
             apply languages_matched in L; destruct L as [? ?]; subst
         end.
  all: rewrite ?append_empty_r in *; eauto 10.
Qed.

(** A match of the Category pattern sets [lang] to one of the six
    languages and [id] to a path that is not empty, and it reaches the end
    of the URL. *)
Lemma Category_match_groups (url rest : string) (caps : captures) :
  re_match ArteTVCategoryIE._VALID_URL url = Some (caps, rest) ->
  exists lang id,
    In lang languages
    /\ group caps "lang" = Some lang /\ group caps "id" = Some id
    /\ id <> EmptyString /\ all_chars is_path_char id = true
    /\ at_end rest = true.
Proof.
  intros H. destruct (re_match_matched _ _ _ _ H) as (w & -> & M).
  unfold ArteTVCategoryIE._VALID_URL in M.
  apply category_url_matched in M.
  destruct M as (lang & id & prev' & rest' & caps1 & L & M & -> & E).
  apply category_path_matched in M. destruct M as (N & A & ->).
  exists lang, id. repeat split; assumption || reflexivity.
Qed.

Lemma starts_with_app (p s : string) : starts_with p (p ++ s) = true.
Proof. unfold starts_with. now rewrite strip_prefix_app. Qed.

Section CategoryExtraction.

Variable _download_webpage : string -> string -> result string.
Variable _og_search_title : string -> option string.
Variable _og_search_description : string -> option string.
Variable _html_search_regex : regex -> result (option string).
Variable _generic_title : string -> string.

(** What a successful crawl went through. *)
Lemma category_extract_Some (url : string) (p : playlist_info url_ref) :
  ArteTVCategoryIE_real_extract _download_webpage _og_search_title
    _og_search_description _html_search_regex _generic_title url
  = Ok (Some p) ->
  exists caps rest lang webpage,
    re_match ArteTVCategoryIE._VALID_URL url = Some (caps, rest)
    /\ group caps "lang" = Some lang
    /\ group caps "id" = Some (pl_id p)
    /\ _download_webpage url (pl_id p) = Ok webpage
    /\ page_items lang url webpage <> []
    /\ map ref_url (pl_entries p) = page_items lang url webpage
    /\ pl_description p
       = (if nonempty (_og_search_description webpage)
          then match _og_search_description webpage with
               | Some d => JStr d
               | None => JNull
               end
          else JNull).
Proof.
  unfold ArteTVCategoryIE_real_extract. intros H.
  destruct (re_match _ url) as [[caps rest]|] eqn:M; [|discriminate].
  destruct (group caps "lang") as [lang|] eqn:Gl; [|discriminate].
  destruct (group caps "id") as [pid|] eqn:Gi; [|discriminate].
  destruct (_download_webpage url pid) as [webpage|] eqn:D; cbn [bind] in H;
    [|discriminate].
  destruct (page_items lang url webpage) as [|i items] eqn:Hi; [discriminate|].
  destruct (category_title _ _ _) as [title|]; cbn [bind] in H; [|discriminate].
  exists caps, rest, lang, webpage. rewrite Hi.
  destruct (nonempty (_og_search_description webpage)) eqn:N;
    inversion H; subst; clear H; cbn;
    rewrite map_map; cbn [url_result ref_url]; rewrite map_id;
    repeat split; try assumption; try reflexivity; discriminate.
Qed.

(** X9. Every entry of the playlist of a category page is a URL that
    Video or Playlist finds suitable, so neither Category nor Embed does:
    a crawl never hands back a category page, itself included. *)
Theorem category_entries_suitable (url : string) (p : playlist_info url_ref) :
  ArteTVCategoryIE_real_extract _download_webpage _og_search_title
    _og_search_description _html_search_regex _generic_title url
  = Ok (Some p) ->
  Forall (fun u => Video_suitable u || Playlist_suitable u = true
                   /\ Category_suitable u = false
                   /\ Embed_suitable u = false)
         (map ref_url (pl_entries p)).
Proof.
  intros H.
  destruct (category_extract_Some _ _ H)
    as (caps & rest & lang & webpage & _ & _ & _ & _ & _ & -> & _).
  apply Forall_forall. intros u Hu.
  pose proof (collect_items_suitable _ _ _ Hu) as S.
  split; [assumption|].
  unfold Category_suitable. simpl. rewrite orb_false_r, S. simpl.
  split; [reflexivity|].
  apply orb_true_iff in S. destruct S as [V|P].
  - now apply Video_not_Embed.
  - destruct (Embed_suitable u) eqn:E; [|reflexivity].
    rewrite (Embed_not_Playlist _ E) in P. discriminate.
Qed.

Lemma page_items_on_arte (lang url webpage u : string) :
  In u (page_items lang url webpage) -> on_arte_videos lang u = true.
Proof.
  unfold page_items, finditer. intros H.
  destruct (collect_items_found _ _ _ H) as (caps & rest & Hin & G).
  destruct (finditer_from_found _ _ _ _ _ Hin) as (prev' & s' & M).
  destruct (link_pattern_url _ _ _ _ _ M) as (secure & tail & G' & _ & _).
  rewrite G in G'. inversion G'; subst.
  unfold on_arte_videos.
  destruct secure; rewrite starts_with_app; [reflexivity | apply orb_true_r].
Qed.

(** X10. Every entry of the playlist of a category page is an address of
    www.arte.tv under [/videos/] in the language of the page, which is one
    of the six: the crawl follows no link to another site or to another
    language. *)
Theorem category_entries_language (url : string) (p : playlist_info url_ref) :
  ArteTVCategoryIE_real_extract _download_webpage _og_search_title
    _og_search_description _html_search_regex _generic_title url
  = Ok (Some p) ->
  exists lang caps rest,
    re_match ArteTVCategoryIE._VALID_URL url = Some (caps, rest)
    /\ group caps "lang" = Some lang
    /\ In lang languages
    /\ Forall (fun u => on_arte_videos lang u = true)
              (map ref_url (pl_entries p)).
Proof.
  intros H.
  destruct (category_extract_Some _ _ H)
    as (caps & rest & lang & webpage & M & Gl & _ & _ & _ & -> & _).
  destruct (Category_match_groups _ _ _ M) as (lang' & id & L & Gl' & _).
  rewrite Gl in Gl'. inversion Gl'; subst lang'.
  exists lang, caps, rest. repeat split; try assumption.
  apply Forall_forall. intros u Hu. eapply page_items_on_arte; eassumption.
Qed.

(** X11. The playlist of a category page is never empty; its id is the
    [id] group of the match of the URL, the path after [/videos/], which
    is not empty; and it has a description only when the page has an Open
    Graph description that is not empty, which is then the description. *)
Theorem category_result_shape (url : string) (p : playlist_info url_ref) :
  ArteTVCategoryIE_real_extract _download_webpage _og_search_title
    _og_search_description _html_search_regex _generic_title url
  = Ok (Some p) ->
  pl_entries p <> []
  /\ _match_id ArteTVCategoryIE._VALID_URL url = Ok (pl_id p)
  /\ pl_id p <> EmptyString
  /\ all_chars is_path_char (pl_id p) = true
  /\ exists webpage,
       _download_webpage url (pl_id p) = Ok webpage
       /\ pl_description p
          = match _og_search_description webpage with
            | Some d => if String.eqb d EmptyString then JNull else JStr d
            | None => JNull
            end.
Proof.
  intros H.
  destruct (category_extract_Some _ _ H)
    as (caps & rest & lang & webpage & M & Gl & Gi & D & Hne & Hm & Hd).
  destruct (Category_match_groups _ _ _ M)
    as (lang' & id & _ & _ & Gi' & Nid & Aid & _).
  rewrite Gi in Gi'. inversion Gi'; subst id.
  split; [|split; [|split; [|split]]]; try assumption.
  - intros E. rewrite E in Hm. simpl in Hm. now apply Hne.
  - unfold _match_id. now rewrite M, Gi.
  - exists webpage. split; [assumption|]. rewrite Hd.
    destruct (_og_search_description webpage) as [d|]; simpl; [|reflexivity].
    now destruct (String.eqb d EmptyString).
Qed.

(** X12. On a URL the Category pattern does not match, the extractor
    raises [AttributeError] and fetches nothing; on every other URL it
    fetches the page of that URL under the [id] group of the match, the
    path after [/videos/]; an error of the fetch is the outcome; and the
    links it looks for in the page are those of the language of the URL,
    the [lang] group of the match, one of the six: a page without such a
    link gives no playlist. *)
Theorem ArteTVCategoryIE_extract_cases (url : string) :
  (suitable ArteTVCategoryIE._VALID_URL url = false
   /\ ArteTVCategoryIE_real_extract _download_webpage _og_search_title
        _og_search_description _html_search_regex _generic_title url
      = Err AttributeError)
  \/ (exists lang id caps rest,
         re_match ArteTVCategoryIE._VALID_URL url = Some (caps, rest)
         /\ group caps "lang" = Some lang
         /\ group caps "id" = Some id
         /\ In lang languages
         /\ id <> EmptyString /\ all_chars is_path_char id = true
         /\ (forall e,
                _download_webpage url id = Err e ->
                ArteTVCategoryIE_real_extract _download_webpage
                  _og_search_title _og_search_description _html_search_regex
                  _generic_title url
                = Err e)
         /\ (forall webpage,
                _download_webpage url id = Ok webpage ->
                page_items lang url webpage = [] ->
                ArteTVCategoryIE_real_extract _download_webpage
                  _og_search_title _og_search_description _html_search_regex
                  _generic_title url
                = Ok None)).
Proof.
  unfold suitable, ArteTVCategoryIE_real_extract.
  destruct (re_match ArteTVCategoryIE._VALID_URL url) as [[caps rest]|] eqn:M.
  - right.
    destruct (Category_match_groups _ _ _ M)
      as (lang & id & L & Gl & Gi & N & A & _).
    exists lang, id, caps, rest. rewrite Gl, Gi.
    repeat split; try assumption.
    + intros e ->. reflexivity.
    + intros webpage D E. rewrite D. cbn [bind]. rewrite E. reflexivity.
  - left. split; reflexivity.
Qed.

End CategoryExtraction.

Lemma malformed_stream_aborts_witness :
  exists e,
    video_of_info string iso_date str_of sort_formats_by_rank "088501-000-A"
      (config_doc "2019-06-28T03:00:00+00:00"
                  [ stream "SQ" "720p" "https://example.org/sq.mp4";
                    JObj [("url", JStr "https://example.org/mq.mp4")] ]
                  full_metadata) = Err e
    /\ (lookup_error e = true
        \/ exists b,
             begin_of (config_attributes "2019-06-28T03:00:00+00:00"
                         [ stream "SQ" "720p" "https://example.org/sq.mp4";
                           JObj [("url", JStr "https://example.org/mq.mp4")] ]
                         full_metadata) = Ok b
             /\ iso_date b = Err e).
Proof.
  apply (malformed_stream_aborts string iso_date str_of sort_formats_by_rank
           "088501-000-A"
           (config_doc "2019-06-28T03:00:00+00:00"
                       [ stream "SQ" "720p" "https://example.org/sq.mp4";
                         JObj [("url", JStr "https://example.org/mq.mp4")] ]
                       full_metadata)
           (config_attributes "2019-06-28T03:00:00+00:00"
              [ stream "SQ" "720p" "https://example.org/sq.mp4";
                JObj [("url", JStr "https://example.org/mq.mp4")] ]
              full_metadata)
           [ stream "SQ" "720p" "https://example.org/sq.mp4";
             JObj [("url", JStr "https://example.org/mq.mp4")] ]
           (JObj [("url", JStr "https://example.org/mq.mp4")]));
    try reflexivity.
  simpl; tauto.
Defined.

Lemma embed_reference_is_video_witness :
  (exists more,
      assoc "json_url" (parse_qs_of_test test_embed_url)
      = Some (ref_url (mk_url_ref
                         "https://api.arte.tv/api/player/v2/config/de/100605-013-A"
                         (Some "ArteTV") (Some "100605-013-A")) :: more))
  /\ Video_suitable "https://api.arte.tv/api/player/v2/config/de/100605-013-A"
     = true
  /\ Embed_suitable "https://api.arte.tv/api/player/v2/config/de/100605-013-A"
     = false
  /\ Playlist_suitable "https://api.arte.tv/api/player/v2/config/de/100605-013-A"
     = false
  /\ Category_suitable "https://api.arte.tv/api/player/v2/config/de/100605-013-A"
     = false
  /\ Some "ArteTV" = Some ArteTVIE_ie_key
  /\ exists id, Some "100605-013-A" = Some id /\ is_arte_id id = true.
Proof.
  apply (embed_reference_is_video parse_qs_of_test test_embed_url
           (mk_url_ref
              "https://api.arte.tv/api/player/v2/config/de/100605-013-A"
              (Some "ArteTV") (Some "100605-013-A"))).
  vm_compute; reflexivity.
Defined.

Lemma playlist_entries_valid_witness :
  pl_id (mk_playlist
           (keep_some
              (map (playlist_entry_of url_shaped int_of try_get_string)
                   [ JObj [ ("url", JStr "https://www.arte.tv/en/videos/088501-000-A/x/") ];
                     JStr "stray" ]))
           "RC-016954" JNull JNull) = "RC-016954"
  /\ Forall (fun e => entry_url e <> EmptyString
                      /\ entry_ie_key e = ArteTVIE_ie_key)
            (pl_entries
               (mk_playlist
                  (keep_some
                     (map (playlist_entry_of url_shaped int_of try_get_string)
                          [ JObj [ ("url", JStr "https://www.arte.tv/en/videos/088501-000-A/x/") ];
                            JStr "stray" ]))
                  "RC-016954" JNull JNull))
  /\ exists videos,
       videos_of
         (JObj [ ("videos",
                  JArr [ JObj [ ("url", JStr "https://www.arte.tv/en/videos/088501-000-A/x/") ];
                         JStr "stray" ]) ]) = Ok videos
       /\ (List.length
             (pl_entries
                (mk_playlist
                   (keep_some
                      (map (playlist_entry_of url_shaped int_of try_get_string)
                           [ JObj [ ("url", JStr "https://www.arte.tv/en/videos/088501-000-A/x/") ];
                             JStr "stray" ]))
                   "RC-016954" JNull JNull))
           <= List.length videos)%nat.
Proof.
  apply (playlist_entries_valid url_shaped int_of try_get_string "RC-016954"
           (JObj [ ("videos",
                    JArr [ JObj [ ("url", JStr "https://www.arte.tv/en/videos/088501-000-A/x/") ];
                           JStr "stray" ]) ])).
  reflexivity.
Defined.

Lemma category_entries_suitable_witness :
  Forall (fun u => Video_suitable u || Playlist_suitable u = true
                   /\ Category_suitable u = false
                   /\ Embed_suitable u = false)
         (map ref_url (pl_entries (category_playlist "Politics and society"))).
Proof.
  apply (category_entries_suitable
           (fun _ _ => Ok category_page)
           (fun _ => Some "Politics and society | ARTE")
           (fun _ => None) (fun _ => Err TypeError)
           (fun _ => "politics-and-society")
           category_url (category_playlist "Politics and society")).
  vm_compute; reflexivity.
Defined.

Lemma category_entries_language_witness :
  exists lang caps rest,
    re_match ArteTVCategoryIE._VALID_URL category_url = Some (caps, rest)
    /\ group caps "lang" = Some lang
    /\ In lang languages
    /\ Forall (fun u => on_arte_videos lang u = true)
              (map ref_url
                   (pl_entries (category_playlist "Politics and society"))).
Proof.
  apply (category_entries_language
           (fun _ _ => Ok category_page)
           (fun _ => Some "Politics and society | ARTE")
           (fun _ => None) (fun _ => Err TypeError)
           (fun _ => "politics-and-society")
           category_url (category_playlist "Politics and society")).
  vm_compute; reflexivity.
Defined.

Lemma category_result_shape_witness :
  pl_entries (category_playlist "Politics and society") <> []
  /\ _match_id ArteTVCategoryIE._VALID_URL category_url
     = Ok (pl_id (category_playlist "Politics and society"))
  /\ pl_id (category_playlist "Politics and society") <> EmptyString
  /\ all_chars is_path_char (pl_id (category_playlist "Politics and society"))
     = true
  /\ exists webpage,
       (fun _ _ : string => Ok category_page) category_url
         (pl_id (category_playlist "Politics and society")) = Ok webpage
       /\ pl_description (category_playlist "Politics and society")
          = match (fun _ : string => @None string) webpage with
            | Some d => if String.eqb d EmptyString then JNull else JStr d
            | None => JNull
            end.
Proof.
  apply (category_result_shape
           (fun _ _ => Ok category_page)
           (fun _ => Some "Politics and society | ARTE")
           (fun _ => None) (fun _ => Err TypeError)
           (fun _ => "politics-and-society")
           category_url (category_playlist "Politics and society")).
  vm_compute; reflexivity.
Defined.

(** ** The URLs of a video *)

Arguments consumed : simpl never.

Lemma consumed_same (s : string) : consumed s s = EmptyString.
Proof. unfold consumed. rewrite Nat.sub_diag. now destruct s. Qed.

Lemma consumed_cons (c : ascii) (s rest : string) :
  (String.length rest <= String.length s)%nat ->
  consumed (String c s) rest = String c (consumed s rest).
Proof.
  unfold consumed. intros L. simpl String.length.
  replace (S (String.length s) - String.length rest)
    with (S (String.length s - String.length rest)) by lia.
  reflexivity.
Qed.

Lemma star_loop_S {R : Type}
      (ma : option ascii -> string -> captures -> cont R -> option R)
      (g : bool) (k : cont R) (fuel : nat) prev s caps :
  star_loop ma g k (S fuel) prev s caps
  = let again :=
      ma prev s caps
         (fun p' s' c' =>
            if Nat.ltb (String.length s') (String.length s)
            then star_loop ma g k fuel p' s' c' else None) in
    if g then orelse again (k prev s caps) else orelse (k prev s caps) again.
Proof. reflexivity. Qed.

(** A greedy repetition of a class takes all the characters of the class
    there are, when what is left to match accepts that. *)
Lemma star_loop_greedy_class {R : Type} (f : ascii -> bool) (v : string) :
  forall prev rest caps (k : cont R) (x : R) (fuel : nat),
    all_chars f v = true ->
    stops f rest = true ->
    (String.length (v ++ rest) <= fuel)%nat ->
    k (last_char v prev) rest caps = Some x ->
    star_loop (fun p s' c k' => mt (Chr f) p s' c k') true k fuel prev
              (v ++ rest) caps = Some x.
Proof.
  induction v as [|c v IH]; intros prev rest caps k x fuel A St L K.
  - simpl in *. destruct fuel as [|fuel]; [assumption|].
    rewrite star_loop_S. cbv zeta.
    destruct rest as [|c rest]; simpl; [assumption|].
    simpl in St. apply negb_true_iff in St. rewrite St. simpl. assumption.
  - simpl in A. apply andb_true_iff in A. destruct A as [Hc A].
    destruct fuel as [|fuel]; [simpl in L; lia|].
    rewrite star_loop_S. cbv zeta.
    change (String c v ++ rest) with (String c (v ++ rest)).
    cbn [mt]. rewrite Hc.
    replace (Nat.ltb (String.length (v ++ rest))
                     (String.length (String c (v ++ rest)))) with true
      by (symmetry; apply Nat.ltb_lt; simpl; lia).
    assert (Lf : (String.length (v ++ rest) <= fuel)%nat)
      by (simpl in L; lia).
    pose proof (IH (Some c) rest caps k x fuel A St Lf K) as E.
    cbn [mt] in E. rewrite E. reflexivity.
Qed.

Lemma mt_greedy_class {R : Type} (f : ascii -> bool) (v : string)
      prev rest caps (k : cont R) (x : R) :
  all_chars f v = true ->
  stops f rest = true ->
  k (last_char v prev) rest caps = Some x ->
  mt (Star true (Chr f)) prev (v ++ rest) caps k = Some x.
Proof.
  intros A St K. rewrite mt_Star_loop.
  apply star_loop_greedy_class; try assumption. lia.
Qed.

Ltac close_consumed :=
  repeat (rewrite consumed_cons by (simpl; lia));
  rewrite ?consumed_same.

(** The page form of the URL of a video, with anything after the
    identifier: the match ends at the identifier and sets [lang] and
    [id]. *)
Lemma Video_page_match (secure www : bool) (lang id rest : string) :
  In lang languages -> is_arte_id id = true ->
  re_match ArteTVIE._VALID_URL (video_page_prefix secure www lang ++ id ++ rest)
  = Some ([("id", id); ("lang", lang)], rest).
Proof.
  intros Hl Hid.
  arte_id_chars Hid id.
  all: unfold re_match, video_page_prefix, scheme; simpl in Hl;
       decompose [or] Hl; subst; try contradiction;
       destruct secure, www; simpl;
       rewrite ?D, ?D0, ?D1, ?D2, ?D3, ?D4, ?D5, ?D6, ?D7; simpl;
       close_consumed; reflexivity.
Qed.

Lemma mt_plus_class {R : Type} (f : ascii -> bool) (c : ascii) (v : string)
      prev rest caps (k : cont R) (x : R) :
  f c = true -> all_chars f v = true -> stops f rest = true ->
  k (last_char v (Some c)) rest caps = Some x ->
  mt (Plus (Chr f)) prev (String c (v ++ rest)) caps k = Some x.
Proof.
  intros Hc A St K.
  change (mt (Plus (Chr f)) prev (String c (v ++ rest)) caps k)
    with (if f c then mt (Star true (Chr f)) (Some c) (v ++ rest) caps k
          else None).
  rewrite Hc. now apply mt_greedy_class.
Qed.

(** The API form of the URL of a video, for any version number and with
    anything after the identifier: the match ends at the identifier and
    sets [lang_2] and [id]. *)
Lemma Video_api_match (secure : bool) (version lang id rest : string) :
  version <> EmptyString -> all_chars is_digit version = true ->
  In lang languages -> is_arte_id id = true ->
  re_match ArteTVIE._VALID_URL
           (video_api_prefix secure version lang ++ id ++ rest)
  = Some ([("id", id); ("lang_2", lang)], rest).
Proof.
  intros Hv Hd Hl Hid.
  destruct version as [|c v]; [contradiction|].
  simpl in Hd. apply andb_true_iff in Hd. destruct Hd as [Hc Hd].
  arte_id_chars Hid id.
  all: unfold re_match, video_api_prefix, scheme, ArteTVIE._VALID_URL;
       unfold Digit; remember (Plus (Chr is_digit)) as U eqn:EU;
       simpl in Hl; decompose [or] Hl; try contradiction; subst lang;
       destruct secure; simpl;
       rewrite ?append_assoc; simpl; subst U;
       match goal with
       | |- context [mt (Plus (Chr is_digit)) ?p (String ?d (?w ++ ?t)) ?cs ?k] =>
           erewrite (mt_plus_class is_digit d w p t cs k);
           [ reflexivity | assumption | assumption | reflexivity | ]
       end;
       simpl; rewrite ?D, ?D0, ?D1, ?D2, ?D3, ?D4, ?D5, ?D6, ?D7; simpl;
       close_consumed; reflexivity.
Qed.

Ltac norm_app :=
  repeat (progress (simpl; rewrite ?append_assoc, ?append_empty_r)).

Ltac shape_done :=
  repeat split; try assumption; try discriminate;
  try (simpl;
       repeat match goal with E : _ = true |- _ => rewrite E; clear E end;
       reflexivity);
  unfold video_page_prefix, video_api_prefix, scheme; norm_app; reflexivity.

(** The text a match of the Video pattern consumed has one of the two
    forms. *)
Lemma Video_url_shape (url : string) :
  Video_suitable url = true ->
  (exists secure www lang id rest,
      In lang languages /\ is_arte_id id = true
      /\ url = video_page_prefix secure www lang ++ id ++ rest)
  \/ (exists secure version lang id rest,
         version <> EmptyString /\ all_chars is_digit version = true
         /\ In lang languages /\ is_arte_id id = true
         /\ url = video_api_prefix secure version lang ++ id ++ rest).
Proof.
  intros H. apply suitable_iff_matched in H.
  destruct H as (w & rest & caps & -> & M).
  unfold ArteTVIE._VALID_URL in M.
  change (Seqs [Rep 6 Digit; Lit "-"; Rep 3 Digit; Lit "-"; OneOf "AF"])
    with arte_id_pattern in M.
  peel.
  all: peel_stars.
  all: repeat match goal with
         | L : matched _ARTE_LANGUAGES _ _ _ _ _ |- _ =>
             apply languages_matched in L; destruct L as [? ?]; subst
         | I : matched arte_id_pattern _ _ _ _ _ |- _ =>
             apply arte_id_matched in I; destruct I as [? ?]; subst
         end.
  all: match goal with
       | L : In ?lang languages, I : is_arte_id ?id = true,
         D : is_digit ?c = true, A : all_chars _ ?v = true |- _ =>
           right;
           first [ exists true, (String c v), lang, id, rest; shape_done
                 | exists false, (String c v), lang, id, rest; shape_done ]
       | L : In ?lang languages, I : is_arte_id ?id = true |- _ =>
           left;
           first [ exists true, true, lang, id, rest; shape_done
                 | exists true, false, lang, id, rest; shape_done
                 | exists false, true, lang, id, rest; shape_done
                 | exists false, false, lang, id, rest; shape_done ]
       end.
Qed.

(** X13. A URL is one of a video exactly when it starts with one of the two
    forms: the page of a video in one of the six languages, or the address
    of its configuration in any version of the API. *)
Theorem Video_suitable_forms (url : string) :
  Video_suitable url = true
  <-> ((exists secure www lang id rest,
           In lang languages /\ is_arte_id id = true
           /\ url = video_page_prefix secure www lang ++ id ++ rest)
       \/ (exists secure version lang id rest,
              version <> EmptyString /\ all_chars is_digit version = true
              /\ In lang languages /\ is_arte_id id = true
              /\ url = video_api_prefix secure version lang ++ id ++ rest)).
Proof.
  split; [apply Video_url_shape|].
  unfold Video_suitable, suitable.
  intros [(secure & www & lang & id & rest & L & I & ->)
         |(secure & version & lang & id & rest & N & A & L & I & ->)].
  - now rewrite Video_page_match.
  - now rewrite Video_api_match.
Qed.

Section VideoURLs.

Variable date : Type.
Variable fromisoformat_date : json -> result date.
Variable py_str : json -> string.
Variable _sort_formats : list format -> result (list format).
Variable _download_json : string -> string -> result json.

(** X14. Whatever the scheme, with or without [www.], whatever the version of
    the API the URL names and whatever follows the identifier, a video is
    resolved from the configuration of its language and identifier at
    version 2 of the API. *)
Theorem video_url_resolution (lang id rest : string) :
  In lang languages -> is_arte_id id = true ->
  (forall secure www,
      ArteTVIE_real_extract date fromisoformat_date py_str _sort_formats
        _download_json (video_page_prefix secure www lang ++ id ++ rest)
      = (info <- _download_json (config_url lang id) id ;;
         video_of_info date fromisoformat_date py_str _sort_formats id info))
  /\ (forall secure version,
         version <> EmptyString -> all_chars is_digit version = true ->
         ArteTVIE_real_extract date fromisoformat_date py_str _sort_formats
           _download_json (video_api_prefix secure version lang ++ id ++ rest)
         = (info <- _download_json (config_url lang id) id ;;
            video_of_info date fromisoformat_date py_str _sort_formats
                          id info)).
Proof.
  intros L I. split.
  - intros secure www. unfold ArteTVIE_real_extract.
    rewrite (Video_page_match secure www lang id rest L I).
    cbn [group String.eqb Ascii.eqb Bool.eqb]. unfold or_str.
    rewrite (language_nonempty _ L). reflexivity.
  - intros secure version N A. unfold ArteTVIE_real_extract.
    rewrite (Video_api_match secure version lang id rest N A L I).
    cbn [group String.eqb Ascii.eqb Bool.eqb]. reflexivity.
Qed.

End VideoURLs.

(** The identifiers of a collection, character by character. *)
Ltac playlist_id_chars Hid id :=
  unfold is_playlist_id, re_fullmatch, playlist_id_pattern, Digit in Hid;
  cbn [mt Rep Lit] in Hid;
  repeat (destruct id as [|? id]; [discriminate|];
          match type of Hid with
          | context [if is_digit ?c then _ else _] =>
              let E := fresh "D" in destruct (is_digit c) eqn:E; [|discriminate]
          | context [if Ascii.eqb ?a ?c then _ else _] =>
              destruct (Ascii.eqb_spec a c) as [<-|]; [|discriminate]
          end);
  destruct id as [|? ?]; [|discriminate].

(** The page of a collection, with anything after the identifier: the
    match ends at the identifier and sets [lang] and [id]. *)
Lemma Playlist_page_match (secure www : bool) (lang id rest : string) :
  In lang languages -> is_playlist_id id = true ->
  re_match ArteTVPlaylistIE._VALID_URL
           (video_page_prefix secure www lang ++ id ++ rest)
  = Some ([("id", id); ("lang", lang)], rest).
Proof.
  intros Hl Hid.
  playlist_id_chars Hid id.
  unfold re_match, video_page_prefix, scheme; simpl in Hl;
    decompose [or] Hl; subst; try contradiction;
    destruct secure, www; simpl;
    rewrite ?D, ?D0, ?D1, ?D2, ?D3, ?D4, ?D5, ?D6, ?D7; simpl;
    close_consumed; reflexivity.
Qed.

Lemma Playlist_url_shape (url : string) :
  Playlist_suitable url = true ->
  exists secure www lang id rest,
    In lang languages /\ is_playlist_id id = true
    /\ url = video_page_prefix secure www lang ++ id ++ rest.
Proof.
  intros H. apply suitable_iff_matched in H.
  destruct H as (w & rest & caps & -> & M).
  unfold ArteTVPlaylistIE._VALID_URL in M.
  change (Seq (Lit "RC-") (Rep 6 Digit)) with playlist_id_pattern in M.
  peel.
  all: repeat match goal with
         | L : matched _ARTE_LANGUAGES _ _ _ _ _ |- _ =>
             apply languages_matched in L; destruct L as [? ?]; subst
         | I : matched playlist_id_pattern _ _ _ _ _ |- _ =>
             apply playlist_id_matched in I; destruct I as [? ?]; subst
         end.
  all: match goal with
       | L : In ?lang languages, I : is_playlist_id ?id = true |- _ =>
           first [ exists true, true, lang, id, rest; shape_done
                 | exists true, false, lang, id, rest; shape_done
                 | exists false, true, lang, id, rest; shape_done
                 | exists false, false, lang, id, rest; shape_done ]
       end.
Qed.

(** X15. A URL is one of a collection exactly when it starts with the page of
    a collection: scheme, [www.] or not, one of the six languages,
    [/videos/], [RC-] and six digits. *)
Theorem Playlist_suitable_forms (url : string) :
  Playlist_suitable url = true
  <-> exists secure www lang id rest,
        In lang languages /\ is_playlist_id id = true
        /\ url = video_page_prefix secure www lang ++ id ++ rest.
Proof.
  split; [apply Playlist_url_shape|].
  unfold Playlist_suitable, suitable.
  intros (secure & www & lang & id & rest & L & I & ->).
  now rewrite Playlist_page_match.
Qed.

Section PlaylistURLs.

Variable url_or_none : json -> option string.
Variable int_or_none : json -> option Z.
Variable try_get_str : json -> (json -> result json) -> json.
Variable _download_json : string -> string -> result json.

(** X16. Whatever the scheme, with or without [www.] and whatever follows the
    identifier, a collection is read from the collection data of its
    language and identifier. *)
Theorem playlist_url_resolution (secure www : bool) (lang id rest : string) :
  In lang languages -> is_playlist_id id = true ->
  ArteTVPlaylistIE_real_extract url_or_none int_or_none try_get_str
    _download_json (video_page_prefix secure www lang ++ id ++ rest)
  = (collection <- _download_json (collection_url lang id) id ;;
     playlist_of_collection url_or_none int_or_none try_get_str id collection).
Proof.
  intros L I. unfold ArteTVPlaylistIE_real_extract.
  rewrite (Playlist_page_match secure www lang id rest L I).
  reflexivity.
Qed.

End PlaylistURLs.

(** ** Building matches *)

Lemma M_Seq_eq a b prev caps w w1 w2 rest caps1 caps2 :
  w = w1 ++ w2 ->
  matched a prev caps w1 (w2 ++ rest) caps1 ->
  matched b (last_char w1 prev) caps1 w2 rest caps2 ->
  matched (Seq a b) prev caps w rest caps2.
Proof. intros ->. apply M_Seq. Qed.

Lemma Lit_build (p : string) prev caps rest :
  matched (Lit p) prev caps p rest caps.
Proof.
  revert prev. induction p as [|c p IH]; intros prev; cbn [Lit].
  - constructor.
  - apply (M_Seq (Char c) (Lit p) prev caps (String c EmptyString) p rest
                 caps caps); [constructor | apply IH].
Qed.

Lemma star_class_build g f v prev caps rest :
  all_chars f v = true -> matched (Star g (Chr f)) prev caps v rest caps.
Proof.
  revert prev. induction v as [|c v IH]; intros prev A.
  - constructor.
  - simpl in A. apply andb_true_iff in A. destruct A as [Hc A].
    apply (M_StarS g (Chr f) prev caps (String c EmptyString) v rest caps caps);
      [discriminate | now constructor | now apply IH].
Qed.

Lemma plus_class_build f c v prev caps rest :
  f c = true -> all_chars f v = true ->
  matched (Plus (Chr f)) prev caps (String c v) rest caps.
Proof.
  intros Hc A.
  apply (M_Seq (Chr f) (Star true (Chr f)) prev caps (String c EmptyString) v
               rest caps caps); [now constructor | now apply star_class_build].
Qed.

Lemma languages_build (lang : string) prev caps rest :
  In lang languages -> matched _ARTE_LANGUAGES prev caps lang rest caps.
Proof.
  unfold _ARTE_LANGUAGES. intros H. simpl in H.
  decompose [or] H; try contradiction; subst lang;
    repeat first [ apply Lit_build | apply M_AltL; apply Lit_build
                 | apply M_AltR ].
Qed.

(** A word matched by a plain pattern is matched by it anywhere. *)
Lemma plain_matched r prev caps w rest caps' :
  matched r prev caps w rest caps' ->
  plain r = true ->
  caps' = caps
  /\ forall prev2 caps2 rest2, matched r prev2 caps2 w rest2 caps2.
Proof.
  intros M. induction M; intros P; simpl in P; try discriminate.
  - split; [reflexivity | intros; constructor].
  - split; [reflexivity | intros; constructor].
  - split; [reflexivity | intros; now constructor].
  - apply andb_true_iff in P. destruct P as [Pa Pb].
    destruct (IHM1 Pa) as [-> B1]. destruct (IHM2 Pb) as [-> B2].
    split; [reflexivity | intros; econstructor; eauto].
  - apply andb_true_iff in P. destruct P as [Pa Pb].
    destruct (IHM Pa) as [-> B]. split; [reflexivity|].
    intros. now apply M_AltL.
  - apply andb_true_iff in P. destruct P as [Pa Pb].
    destruct (IHM Pb) as [-> B]. split; [reflexivity|].
    intros. now apply M_AltR.
  - split; [reflexivity | intros; constructor].
  - destruct (IHM1 P) as [-> B1]. destruct (IHM2 P) as [-> B2].
    split; [reflexivity | intros; eapply M_StarS; eauto].
Qed.

(** [re.fullmatch], in terms of matches. *)
Lemma re_fullmatch_matched (r : regex) (s : string) :
  (exists m, re_fullmatch r s = Some m)
  <-> exists caps, matched r None [] s EmptyString caps.
Proof.
  unfold re_fullmatch. split.
  - intros [m H].
    destruct (mt_sound _ _ _ _ _ _ H) as (w & rest & caps & -> & M & K).
    destruct rest; [|discriminate]. rewrite append_empty_r. eauto.
  - intros [caps M].
    destruct (mt_complete r None [] s EmptyString caps
                (fun _ rest caps =>
                   match rest with
                   | EmptyString => Some (caps, rest)
                   | String _ _ => None
                   end) (caps, EmptyString) M eq_refl) as (v & E).
    rewrite append_empty_r in E. eauto.
Qed.

Lemma category_path_iff (p : string) :
  is_category_path p = true
  <-> forall prev caps rest, matched category_id_pattern prev caps p rest caps.
Proof.
  unfold is_category_path. split.
  - destruct (re_fullmatch category_id_pattern p) eqn:E; [|discriminate].
    intros _.
    destruct (proj1 (re_fullmatch_matched _ _) (ex_intro _ _ E)) as [caps M].
    now destruct (plain_matched _ _ _ _ _ _ M eq_refl) as [_ B].
  - intros B.
    destruct (proj2 (re_fullmatch_matched category_id_pattern p)
                    (ex_intro _ [] (B None [] EmptyString))) as [m ->].
    reflexivity.
Qed.

(** ** The URLs of a category *)

(** A page of arte.tv: the part of the three page patterns up to
    [/videos/], in front of any pattern [T] for what follows. *)
Lemma arte_page_build (T : regex) (secure www : bool) (lang w rest : string)
      (caps' : captures) :
  In lang languages ->
  matched T (Some "/"%char) [("lang", lang)] w rest caps' ->
  matched (Seq (Lit "http") (Seq (Opt (Lit "s")) (Seq (Lit "://")
            (Seq (Opt (Lit "www.")) (Seq (Lit "arte.tv/")
              (Seq (Group "lang" _ARTE_LANGUAGES)
                 (Seq (Lit "/videos/") T)))))))
          None [] (video_page_prefix secure www lang ++ w) rest caps'.
Proof.
  intros L M. unfold video_page_prefix, scheme.
  rewrite !append_assoc.
  apply (M_Seq_eq _ _ _ _ _ "http"
           ((if secure then "s" else EmptyString) ++ "://"
            ++ (if www then "www." else EmptyString) ++ "arte.tv/" ++ lang
            ++ "/videos/" ++ w) rest [] caps');
    [now destruct secure | apply Lit_build |].
  apply (M_Seq_eq _ _ _ _ _ (if secure then "s" else EmptyString)
           ("://" ++ (if www then "www." else EmptyString) ++ "arte.tv/" ++ lang
            ++ "/videos/" ++ w) rest [] caps');
    [ reflexivity
    | destruct secure; [apply M_AltL, Lit_build | apply M_AltR; constructor]
    | ].
  apply (M_Seq_eq _ _ _ _ _ "://"
           ((if www then "www." else EmptyString) ++ "arte.tv/" ++ lang
            ++ "/videos/" ++ w) rest [] caps');
    [reflexivity | apply Lit_build |].
  apply (M_Seq_eq _ _ _ _ _ (if www then "www." else EmptyString)
           ("arte.tv/" ++ lang ++ "/videos/" ++ w) rest [] caps');
    [ reflexivity
    | destruct www; [apply M_AltL, Lit_build | apply M_AltR; constructor]
    | ].
  apply (M_Seq_eq _ _ _ _ _ "arte.tv/" (lang ++ "/videos/" ++ w) rest []
           caps');
    [reflexivity | apply Lit_build |].
  apply (M_Seq_eq _ _ _ _ _ lang ("/videos/" ++ w) rest [("lang", lang)]
           caps');
    [reflexivity | apply M_Group, languages_build, L |].
  apply (M_Seq_eq _ _ _ _ _ "/videos/" w rest [("lang", lang)] caps');
    [reflexivity | apply Lit_build | exact M].
Qed.

Ltac page_shape_done :=
  repeat split; try eassumption;
  unfold video_page_prefix, scheme; norm_app; reflexivity.

(** What a match of a page pattern with [U] as its path, an optional
    slash and white space up to the end has consumed. *)
Lemma category_url_shape (U : regex) w rest caps :
  matched
    (Seqs [ Lit "http"; Opt (Lit "s"); Lit "://"; Opt (Lit "www.");
            Lit "arte.tv/"; Group "lang" _ARTE_LANGUAGES; Lit "/videos/";
            Group "id" U; Opt (Lit "/"); Star true Space; Dollar ])
    None [] w rest caps ->
  exists secure www lang id slash spaces prev' rest' caps1,
    In lang languages
    /\ matched U prev' [("lang", lang)] id rest' caps1
    /\ caps = ("id", id) :: caps1
    /\ all_chars is_space spaces = true
    /\ at_end rest = true
    /\ w = video_page_prefix secure www lang ++ id
           ++ (if slash : bool then "/" else EmptyString) ++ spaces.
Proof.
  intros M. peel. all: peel_stars.
  all: repeat match goal with
         | L : matched _ARTE_LANGUAGES _ _ _ _ _ |- _ =>
             apply languages_matched in L; destruct L as [? ?]; subst
         end.
  all: match goal with
       | L : In ?lang languages, MU : matched _ _ _ ?id _ _,
         A : all_chars _ ?sp = true |- _ =>
           first
             [ exists true, true, lang, id, true, sp; do 3 eexists;
               page_shape_done
             | exists true, true, lang, id, false, sp; do 3 eexists;
               page_shape_done
             | exists true, false, lang, id, true, sp; do 3 eexists;
               page_shape_done
             | exists true, false, lang, id, false, sp; do 3 eexists;
               page_shape_done
             | exists false, true, lang, id, true, sp; do 3 eexists;
               page_shape_done
             | exists false, true, lang, id, false, sp; do 3 eexists;
               page_shape_done
             | exists false, false, lang, id, true, sp; do 3 eexists;
               page_shape_done
             | exists false, false, lang, id, false, sp; do 3 eexists;
               page_shape_done ]
       end.
Qed.

Lemma at_end_space (rest : string) :
  at_end rest = true -> all_chars is_space rest = true.
Proof.
  destruct rest as [|c [|d rest]]; simpl; try discriminate; [reflexivity|].
  intros E. apply Ascii.eqb_eq in E. subst c. reflexivity.
Qed.

(** A URL of the form of a category is matched by the pattern of the
    Category extractor. *)
Lemma category_form_suitable (secure www slash : bool)
      (lang path spaces : string) :
  In lang languages -> is_category_path path = true ->
  all_chars is_space spaces = true ->
  suitable ArteTVCategoryIE._VALID_URL
           (video_page_prefix secure www lang ++ path
            ++ (if slash then "/" else EmptyString) ++ spaces) = true.
Proof.
  intros L P A.
  apply suitable_iff_matched.
  exists (video_page_prefix secure www lang ++ path
          ++ (if slash then "/" else EmptyString) ++ spaces), EmptyString.
  exists [("id", path); ("lang", lang)].
  split; [now rewrite append_empty_r|].
  unfold ArteTVCategoryIE._VALID_URL. cbn [Seqs].
  apply arte_page_build; [assumption|].
  set (caps := [("id", path); ("lang", lang)]).
  apply (M_Seq_eq _ _ _ _ _ path
           ((if slash then "/" else EmptyString) ++ spaces)
           EmptyString caps caps); [reflexivity | apply M_Group | ].
  - apply (proj1 (category_path_iff path) P).
  - apply (M_Seq_eq _ _ _ _ _ (if slash then "/" else EmptyString) spaces
             EmptyString caps caps);
      [ reflexivity
      | destruct slash; [apply M_AltL, Lit_build | apply M_AltR, M_Eps]
      | ].
    apply (M_Seq_eq _ _ _ _ _ spaces EmptyString EmptyString caps caps);
      [ now rewrite append_empty_r
      | now apply star_class_build
      | ].
    apply (M_Seq_eq _ _ _ _ _ EmptyString EmptyString EmptyString caps caps);
      [reflexivity | now constructor | constructor].
Qed.

(** X17. The URLs the pattern of the Category extractor matches: scheme,
    [www.] or not, one of the six languages, [/videos/], a path of
    segments of word characters and dashes, then at most one slash and
    white space up to the end. *)
Theorem Category_pattern_forms (url : string) :
  suitable ArteTVCategoryIE._VALID_URL url = true
  <-> exists secure www lang path (slash : bool) spaces,
        In lang languages /\ is_category_path path = true
        /\ all_chars is_space spaces = true
        /\ url = video_page_prefix secure www lang ++ path
                 ++ (if slash then "/" else EmptyString) ++ spaces.
Proof.
  split.
  - intros H. apply suitable_iff_matched in H.
    destruct H as (w & rest & caps & -> & M).
    unfold ArteTVCategoryIE._VALID_URL in M.
    apply category_url_shape in M.
    destruct M as (secure & www & lang & id & slash & spaces & prev' & rest'
                   & caps1 & L & M & _ & A & E & ->).
    exists secure, www, lang, id, slash, (spaces ++ rest).
    repeat split; try assumption.
    + apply category_path_iff. intros prev caps2 rest2.
      now destruct (plain_matched _ _ _ _ _ _ M eq_refl) as [_ B].
    + now rewrite all_chars_app, A, (at_end_space _ E).
    + now rewrite !append_assoc.
  - intros (secure & www & lang & path & slash & spaces & L & P & A & ->).
    now apply category_form_suitable.
Qed.

Lemma digit_word (c : ascii) : is_digit c = true -> is_word c = true.
Proof. unfold is_digit, is_word. now intros ->. Qed.

(** An identifier of a video, or of a collection, is a path of one
    segment. *)
Lemma id_category_path (id : string) :
  is_arte_id id = true \/ is_playlist_id id = true ->
  is_category_path id = true.
Proof.
  intros [Hid|Hid]; apply category_path_iff; intros prev caps rest;
    unfold category_id_pattern, WordDash.
  - arte_id_chars Hid id.
    all: eapply (M_Seq_eq _ _ _ _ _ _ EmptyString);
      [ symmetry; apply append_empty_r
      | apply plus_class_build;
        [ now rewrite (digit_word _ D)
        | cbn [all_chars];
          rewrite ?(digit_word _ D0), ?(digit_word _ D1), ?(digit_word _ D2),
            ?(digit_word _ D3), ?(digit_word _ D4), ?(digit_word _ D5),
            ?(digit_word _ D6), ?(digit_word _ D7); reflexivity ]
      | constructor ].
  - playlist_id_chars Hid id.
    eapply (M_Seq_eq _ _ _ _ _ _ EmptyString);
      [ symmetry; apply append_empty_r
      | apply plus_class_build;
        [ reflexivity
        | cbn [all_chars];
          rewrite ?(digit_word _ D), ?(digit_word _ D0), ?(digit_word _ D1),
            ?(digit_word _ D2), ?(digit_word _ D3), ?(digit_word _ D4);
          reflexivity ]
      | constructor ].
Qed.

(** X18. The page of a video or of a collection, alone or followed by the
    segments of a path and a slash, matches the pattern of the Category
    extractor as well: what keeps it from that extractor is the check of
    the two other extractors in [suitable]. *)
Theorem category_guard_needed (secure www slash : bool)
        (lang id rest : string) :
  In lang languages ->
  is_arte_id id = true \/ is_playlist_id id = true ->
  is_category_path (id ++ rest) = true ->
  suitable ArteTVCategoryIE._VALID_URL
           (video_page_prefix secure www lang ++ id ++ rest
            ++ (if slash then "/" else EmptyString)) = true
  /\ Category_suitable (video_page_prefix secure www lang ++ id ++ rest
                        ++ (if slash then "/" else EmptyString)) = false.
Proof.
  intros L I P. split.
  - pose proof (category_form_suitable secure www slash lang (id ++ rest)
                  EmptyString L P eq_refl) as S.
    now rewrite append_empty_r, !append_assoc in S.
  - unfold Category_suitable. cbn [existsb].
    unfold Video_suitable, Playlist_suitable, suitable at 1 2.
    destruct I as [I|I].
    + now rewrite (Video_page_match secure www lang id _ L I).
    + rewrite (Playlist_page_match secure www lang id _ L I).
      now rewrite orb_true_r.
Qed.

(** ** The addresses [_extract_urls] finds *)

Lemma M_Seq_inv a b prev caps w rest caps2 :
  matched (Seq a b) prev caps w rest caps2 ->
  exists w1 w2 caps1,
    w = w1 ++ w2
    /\ matched a prev caps w1 (w2 ++ rest) caps1
    /\ matched b (last_char w1 prev) caps1 w2 rest caps2.
Proof. inversion 1; subst; eauto 10. Qed.

(** The query of the address of a player: what matches it in a page
    matches it anywhere, with a greedy or a lazy end. *)
Lemma player_query_matched g prev caps w rest caps' :
  matched (Seqs [ Lit "/index.php?"; Star false Dot; WordB; Lit "json_url=";
                  Seq Dot (Star g Dot) ])
          prev caps w rest caps' ->
  caps' = caps
  /\ forall g' prev2 caps2 rest2,
       matched (Seqs [ Lit "/index.php?"; Star false Dot; WordB;
                       Lit "json_url="; Seq Dot (Star g' Dot) ])
               prev2 caps2 w rest2 caps2.
Proof.
  intros M. cbn [Seqs] in M.
  apply M_Seq_inv in M. destruct M as (w1 & w2 & c1 & -> & M1 & M).
  apply Lit_matched in M1. destruct M1 as [-> ->].
  apply M_Seq_inv in M. destruct M as (q & w3 & c2 & -> & Mq & M).
  unfold Dot in Mq. apply star_class_matched in Mq. destruct Mq as [Aq ->].
  apply M_Seq_inv in M. destruct M as (wb & w4 & c3 & -> & Mb & M).
  inversion Mb as [| | | | | | | | | |? ? ? X|]; subst; clear Mb.
  apply M_Seq_inv in M. destruct M as (w5 & w6 & c4 & -> & M5 & M).
  apply Lit_matched in M5. destruct M5 as [-> ->].
  apply M_Seq_inv in M. destruct M as (w7 & w8 & c5 & -> & M7 & M8).
  inversion M8; subst; clear M8.
  apply M_Seq_inv in M7. destruct M7 as (d & t & c6 & -> & Md & Mt).
  unfold Dot in Md, Mt.
  apply star_class_matched in Mt. destruct Mt as [At ->].
  inversion Md as [| |? c ? ? ? Hc| | | | | | | | |]; subst; clear Md.
  split; [reflexivity|].
  intros g' prev2 caps2 rest2. cbn [Seqs].
  apply (M_Seq_eq _ _ _ _ _ "/index.php?"
           (q ++ EmptyString ++ "json_url=" ++ (String c EmptyString ++ t)
            ++ EmptyString)
           rest2 caps2 caps2); [reflexivity | apply Lit_build |].
  apply (M_Seq_eq _ _ _ _ _ q
           (EmptyString ++ "json_url=" ++ (String c EmptyString ++ t)
            ++ EmptyString)
           rest2 caps2 caps2);
    [reflexivity | now apply star_class_build |].
  apply (M_Seq_eq _ _ _ _ _ EmptyString
           ("json_url=" ++ (String c EmptyString ++ t) ++ EmptyString)
           rest2 caps2 caps2); [reflexivity | |].
  { constructor. simpl in X |- *. exact X. }
  apply (M_Seq_eq _ _ _ _ _ "json_url="
           ((String c EmptyString ++ t) ++ EmptyString)
           rest2 caps2 caps2); [reflexivity | apply Lit_build |].
  apply (M_Seq_eq _ _ _ _ _ (String c EmptyString ++ t) EmptyString rest2
           caps2 caps2);
    [reflexivity | | constructor].
  apply (M_Seq_eq _ _ _ _ _ (String c EmptyString) t _ caps2 caps2);
    [reflexivity | now constructor | now apply star_class_build].
Qed.

(** What the [url] group of [_extract_urls] holds: nothing, [http:] or
    [https:], then two slashes and the address of a player. *)
Lemma player_url_matched prev caps u rest caps' :
  matched player_url_pattern prev caps u rest caps' ->
  exists sch body,
    (sch = EmptyString \/ sch = "http:" \/ sch = "https:")
    /\ u = sch ++ "//" ++ body
    /\ forall prev2 caps2 rest2,
         matched player_body_pattern prev2 caps2 body rest2 caps2.
Proof.
  unfold player_url_pattern, LazyPlus, Plus. intros M. cbn [Seqs] in M.
  apply M_Seq_inv in M. destruct M as (w0 & ? & c0 & -> & M0 & M).
  apply M_Seq_inv in M. destruct M as (w1 & ? & c1 & -> & M1 & M).
  apply (Lit_matched "//") in M1. destruct M1 as [-> ->].
  apply M_Seq_inv in M. destruct M as (w2 & ? & c2 & -> & M2 & M).
  apply M_Seq_inv in M. destruct M as (w3 & ? & c3 & -> & M3 & M).
  apply M_Seq_inv in M. destruct M as (w4 & w5 & c4 & -> & M4 & M).
  destruct (plain_matched _ _ _ _ _ _ M2 eq_refl) as [_ B2].
  destruct (plain_matched _ _ _ _ _ _ M3 eq_refl) as [_ B3].
  destruct (plain_matched _ _ _ _ _ _ M4 eq_refl) as [_ B4].
  apply player_query_matched in M. destruct M as [_ B5].
  clear M2 M3 M4.
  assert (B : forall prev2 caps2 rest2,
             matched player_body_pattern prev2 caps2 (w2 ++ w3 ++ w4 ++ w5)
                     rest2 caps2).
  { intros prev2 caps2 rest2. unfold player_body_pattern, Plus. cbn [Seqs].
    apply (M_Seq_eq _ _ _ _ _ w2 (w3 ++ w4 ++ w5) rest2 caps2 caps2);
      [reflexivity | apply B2 |].
    apply (M_Seq_eq _ _ _ _ _ w3 (w4 ++ w5) rest2 caps2 caps2);
      [reflexivity | apply B3 |].
    apply (M_Seq_eq _ _ _ _ _ w4 w5 rest2 caps2 caps2);
      [reflexivity | apply B4 | apply (B5 true)]. }
  exists w0, (w2 ++ w3 ++ w4 ++ w5). split; [|split; [reflexivity | exact B]].
  clear B B2 B3 B4 B5. peel; simpl; tauto.
Qed.

(** A match of a tag with what [U] matches as its source puts the source
    in the [url] group. *)
Lemma player_tag_matched (U : regex) prev w rest caps :
  matched
    (Seqs [ Lit "<"; Alt (Lit "iframe") (Lit "script");
            Plus (Chr (fun c => negb (Ascii.eqb c ">")));
            Lit "src=";
            Group "1" (Chr (fun c => Ascii.eqb c dquote || Ascii.eqb c "'"));
            Group "url" U;
            Backref "1" ])
    prev [] w rest caps ->
  exists prev' caps0 wu rest' caps1,
    matched U prev' caps0 wu rest' caps1
    /\ caps = ("url", wu) :: caps1.
Proof.
  intros M. peel. all: peel_stars. all: eauto 10.
Qed.

(** An address of a player with a scheme in front is one for
    [ArteTVEmbedIE]. *)
Lemma player_body_suitable (secure : bool) (body : string) :
  (forall prev caps rest, matched player_body_pattern prev caps body rest caps) ->
  Embed_suitable (scheme secure ++ "://" ++ body) = true.
Proof.
  intros B. apply suitable_iff_matched.
  exists (scheme secure ++ "://" ++ body), EmptyString, [].
  split; [now rewrite append_empty_r|].
  unfold ArteTVEmbedIE._VALID_URL, scheme. cbn [Seqs].
  apply (M_Seq_eq _ _ _ _ _ "http"
           ((if secure then "s" else EmptyString) ++ "://" ++ body) EmptyString [] []);
    [now destruct secure | apply Lit_build |].
  apply (M_Seq_eq _ _ _ _ _ (if secure then "s" else EmptyString) ("://" ++ body)
           EmptyString [] []);
    [ reflexivity
    | destruct secure; [apply M_AltL, Lit_build | apply M_AltR, M_Eps]
    | ].
  apply (M_Seq_eq _ _ _ _ _ "://" body EmptyString [] []);
    [reflexivity | apply Lit_build | apply B].
Qed.

(** X20. Every address [_extract_urls] returns is the address of a player:
    with its scheme it is a URL for [ArteTVEmbedIE]; without one it starts
    with two slashes, is no URL for [ArteTVEmbedIE] as it stands and becomes
    one with [http:] or [https:] in front. *)
Theorem extracted_urls_are_players (webpage u : string) :
  In u (_extract_urls webpage) ->
  Embed_suitable u = true
  \/ (starts_with "//" u = true
      /\ Embed_suitable u = false
      /\ Embed_suitable ("http:" ++ u) = true
      /\ Embed_suitable ("https:" ++ u) = true).
Proof.
  unfold _extract_urls. intros H. apply in_map_iff in H.
  destruct H as ([caps rest] & <- & H).
  apply finditer_from_found in H. destruct H as (prev & s & H).
  destruct (mt_sound _ _ _ _ _ _ H) as (w & rest' & caps' & -> & M & K).
  inversion K; subst; clear K H.
  unfold player_tag_pattern in M. apply player_tag_matched in M.
  destruct M as (prev' & caps0 & wu & rest0 & caps1 & M & ->).
  apply player_url_matched in M.
  destruct M as (sch & body & S & -> & B).
  cbn [fst group String.eqb Ascii.eqb Bool.eqb].
  destruct S as [->|[->| ->]].
  - right. repeat split.
    + apply (player_body_suitable false body B).
    + apply (player_body_suitable true body B).
  - left. apply (player_body_suitable false body B).
  - left. apply (player_body_suitable true body B).
Qed.

(** ** The id of a category *)

Lemma space_not_path (c : ascii) :
  is_space c = true -> is_path_char c = false.
Proof.
  destruct c as [[] [] [] [] [] [] [] []]; vm_compute;
    intros H; reflexivity || discriminate H.
Qed.

Lemma all_chars_last (f : ascii -> bool) (t : string) (c0 : ascii) :
  f c0 = true -> all_chars f t = true ->
  exists c, last_char t (Some c0) = Some c /\ f c = true.
Proof.
  revert c0. induction t as [|d t IH]; intros c0 H0 A; simpl.
  - eauto.
  - simpl in A. apply andb_true_iff in A. destruct A as [Hd A]. now apply IH.
Qed.

Lemma plus_class_last (f : ascii -> bool) prev caps w rest caps' d :
  matched (Plus (Chr f)) prev caps w rest caps' ->
  exists c, last_char w d = Some c /\ f c = true.
Proof.
  intros M. apply M_Seq_inv in M. destruct M as (w1 & w2 & c1 & -> & M1 & M2).
  apply star_class_matched in M2. destruct M2 as [A _].
  inversion M1; subst. simpl. now apply all_chars_last.
Qed.

(** The segments after the first one leave a path that ends with a
    character of a segment. *)
Lemma path_segments_last g prev caps w rest caps' :
  matched (Star g (Seq (Lit "/") (Plus WordDash))) prev caps w rest caps' ->
  forall c0, is_word c0 || Ascii.eqb c0 "-" = true ->
  exists c, last_char w (Some c0) = Some c
            /\ is_word c || Ascii.eqb c "-" = true.
Proof.
  remember (Star g (Seq (Lit "/") (Plus WordDash))) as r eqn:Hr. intros M.
  induction M; try discriminate; inversion Hr; subst; intros c0 H0.
  - simpl. eauto.
  - clear IHM1. apply M_Seq_inv in M1.
    destruct M1 as (u1 & u2 & c1 & -> & _ & P).
    unfold WordDash in P.
    destruct (plus_class_last _ _ _ _ _ _ (last_char u1 (Some c0)) P)
      as (c & E & Hc).
    rewrite last_char_app, last_char_app, E. now apply IHM2.
Qed.

(** A path of a category is made of the characters of a link and does
    not end with a slash. *)
Lemma category_path_ends (p : string) :
  is_category_path p = true ->
  all_chars is_path_char p = true
  /\ exists c, last_char p None = Some c /\ c <> "/"%char.
Proof.
  intros H.
  pose proof (proj1 (category_path_iff p) H None [] EmptyString) as M.
  destruct (category_path_matched _ _ _ _ _ M) as (_ & A & _).
  split; [assumption|].
  unfold category_id_pattern in M. apply M_Seq_inv in M.
  destruct M as (w1 & w2 & c1 & -> & M1 & M2).
  unfold WordDash in M1.
  destruct (plus_class_last _ _ _ _ _ _ None M1) as (c & E & Hc).
  destruct (path_segments_last _ _ _ _ _ _ M2 c Hc) as (c' & E' & Hc').
  exists c'. rewrite last_char_app, E. split; [assumption|].
  intros ->. discriminate Hc'.
Qed.

(** Where a path ends in a URL: two paths in front of an optional slash
    and white space are the same path. *)
Lemma path_unique (a : string) :
  forall (b x y : string) (sa sb : bool),
    all_chars is_path_char a = true -> all_chars is_path_char b = true ->
    last_char a None <> Some "/"%char -> last_char b None <> Some "/"%char ->
    all_chars is_space x = true -> all_chars is_space y = true ->
    a ++ (if sa then "/" else EmptyString) ++ x = b ++ (if sb then "/" else EmptyString) ++ y ->
    a = b.
Proof.
  assert (Hend : forall (b x y : string) (sa sb : bool),
             b <> EmptyString ->
             all_chars is_path_char b = true ->
             last_char b None <> Some "/"%char ->
             all_chars is_space x = true ->
             (if sa then "/" else EmptyString) ++ x
             = b ++ (if sb then "/" else EmptyString) ++ y -> False).
  { intros [|c b] x y sa sb Nb Ab Lb Ax E; [now apply Nb|].
    simpl in Ab. apply andb_true_iff in Ab. destruct Ab as [Hc Ab].
    destruct sa; simpl in E.
    - inversion E; subst. destruct b as [|d b]; [now apply Lb|].
      simpl in Ab, Ax. apply andb_true_iff in Ab. destruct Ab as [Hd _].
      apply andb_true_iff in Ax. destruct Ax as [Sd _].
      rewrite (space_not_path _ Sd) in Hd. discriminate.
    - destruct x as [|d x]; [discriminate|]. inversion E; subst.
      simpl in Ax. apply andb_true_iff in Ax. destruct Ax as [Sd _].
      rewrite (space_not_path _ Sd) in Hc. discriminate. }
  induction a as [|c a IH]; intros b x y sa sb Aa Ab La Lb Ax Ay E.
  - destruct b as [|d b]; [reflexivity|]. exfalso.
    eapply (Hend (String d b) x y sa sb); try eassumption. discriminate.
  - destruct b as [|d b].
    + exfalso.
      eapply (Hend (String c a) y x sb sa); try eassumption;
        [discriminate | now symmetry].
    + simpl in E. inversion E; subst. f_equal.
      simpl in Aa, Ab.
      apply andb_true_iff in Aa. destruct Aa as [_ Aa].
      apply andb_true_iff in Ab. destruct Ab as [_ Ab].
      apply (IH b x y sa sb); try assumption.
      * destruct a; [discriminate | exact La].
      * destruct b; [discriminate | exact Lb].
Qed.

(** The part of a page of arte.tv up to [/videos/] is read in one way. *)
Lemma video_page_prefix_unique (s w s' w' : bool) (l l' a b : string) :
  In l languages -> In l' languages ->
  video_page_prefix s w l ++ a = video_page_prefix s' w' l' ++ b ->
  l = l' /\ a = b.
Proof.
  intros L L' E. simpl in L, L'.
  decompose [or] L; try contradiction; subst l;
    decompose [or] L'; try contradiction; subst l';
    destruct s, w, s', w'; simpl in E; try discriminate E;
    inversion E; split; reflexivity.
Qed.

(** X19. The id of a category is the path of its URL: what stands between
    [/videos/] and the closing slash or white space, with the slashes
    between its segments; its language is the one of the URL. *)
Theorem category_url_id (secure www slash : bool)
        (lang path spaces : string) :
  In lang languages -> is_category_path path = true ->
  all_chars is_space spaces = true ->
  exists caps rest,
    re_match ArteTVCategoryIE._VALID_URL
             (video_page_prefix secure www lang ++ path
              ++ (if slash then "/" else EmptyString) ++ spaces) = Some (caps, rest)
    /\ group caps "lang" = Some lang
    /\ group caps "id" = Some path
    /\ _match_id ArteTVCategoryIE._VALID_URL
                 (video_page_prefix secure www lang ++ path
                  ++ (if slash then "/" else EmptyString) ++ spaces) = Ok path.
Proof.
  intros L P A.
  assert (S : suitable ArteTVCategoryIE._VALID_URL
                (video_page_prefix secure www lang ++ path
                 ++ (if slash then "/" else EmptyString) ++ spaces) = true).
  { now apply category_form_suitable. }
  unfold suitable in S. unfold _match_id.
  destruct (re_match _ _) as [[caps rest]|] eqn:E; [clear S | discriminate].
  exists caps, rest.
  destruct (re_match_matched _ _ _ _ E) as (w & U & M).
  unfold ArteTVCategoryIE._VALID_URL in M.
  apply category_url_shape in M.
  destruct M as (secure' & www' & lang' & id & slash' & spaces' & prev' & rest'
                 & caps1 & L' & M & -> & A' & R & ->).
  destruct (plain_matched _ _ _ _ _ _ M eq_refl) as [-> B].
  assert (P' : is_category_path id = true)
    by (apply category_path_iff; intros; apply B).
  rewrite !append_assoc in U.
  destruct (video_page_prefix_unique _ _ _ _ _ _ _ _ L L' U) as [<- U'].
  destruct (category_path_ends _ P) as (Ap & c & Ep & Np).
  destruct (category_path_ends _ P') as (Ai & c' & Ei & Ni).
  assert (X : path = id).
  { apply (path_unique path id spaces (spaces' ++ rest) slash slash');
      try assumption.
    - rewrite Ep. congruence.
    - rewrite Ei. congruence.
    - now rewrite all_chars_app, A', (at_end_space _ R). }
  subst id.
  cbn [group String.eqb Ascii.eqb Bool.eqb].
  repeat split; reflexivity.
Qed.

(** ** Instances *)

Lemma video_url_resolution_witness :
  ArteTVIE_real_extract string iso_date str_of sort_formats_by_rank
    (fun _ _ => Ok doc_SQ_MQ)
    (video_api_prefix true "5" "de" ++ "100605-013-A" ++ "?autoplay=true")
  = (info <- Ok doc_SQ_MQ ;;
     video_of_info string iso_date str_of sort_formats_by_rank "100605-013-A"
                   info).
Proof.
  apply (proj2 (video_url_resolution string iso_date str_of
                  sort_formats_by_rank (fun _ _ => Ok doc_SQ_MQ)
                  "de" "100605-013-A" "?autoplay=true"
                  (or_intror (or_introl eq_refl)) eq_refl) true "5");
    [discriminate | reflexivity].
Defined.

Lemma playlist_url_resolution_witness :
  ArteTVPlaylistIE_real_extract url_shaped int_of try_get_string
    (fun _ _ => Ok collection_doc)
    (video_page_prefix false false "pl" ++ "RC-014123" ++ "/arte-reportage/")
  = (collection <- Ok collection_doc ;;
     playlist_of_collection url_shaped int_of try_get_string "RC-014123"
                            collection).
Proof.
  apply (playlist_url_resolution url_shaped int_of try_get_string
           (fun _ _ => Ok collection_doc) false false "pl" "RC-014123"
           "/arte-reportage/"); [simpl; tauto | reflexivity].
Defined.

Lemma category_guard_needed_witness :
  suitable ArteTVCategoryIE._VALID_URL
    "https://www.arte.tv/en/videos/088501-000-A/mexico-stealing-petrol-to-survive/"
  = true
  /\ Category_suitable
       "https://www.arte.tv/en/videos/088501-000-A/mexico-stealing-petrol-to-survive/"
     = false.
Proof.
  apply (category_guard_needed true true true "en" "088501-000-A"
           "/mexico-stealing-petrol-to-survive");
    [simpl; tauto | left; reflexivity | vm_compute; reflexivity].
Defined.

Lemma category_url_id_witness :
  exists caps rest,
    re_match ArteTVCategoryIE._VALID_URL
             "https://www.arte.tv/en/videos/politics-and-society/"
    = Some (caps, rest)
    /\ group caps "lang" = Some "en"
    /\ group caps "id" = Some "politics-and-society"
    /\ _match_id ArteTVCategoryIE._VALID_URL
                 "https://www.arte.tv/en/videos/politics-and-society/"
       = Ok "politics-and-society".
Proof.
  apply (category_url_id true true true "en" "politics-and-society"
           EmptyString);
    [simpl; tauto | vm_compute; reflexivity | reflexivity].
Defined.

Lemma extracted_urls_are_players_witness :
  Embed_suitable
    "//www.arte.tv/player/v5/index.php?json_url=https%3A%2F%2Fapi.arte.tv%2Fapi%2Fplayer%2Fv2%2Fconfig%2Fde%2F100605-013-A&lang=de"
  = true
  \/ (starts_with "//"
        "//www.arte.tv/player/v5/index.php?json_url=https%3A%2F%2Fapi.arte.tv%2Fapi%2Fplayer%2Fv2%2Fconfig%2Fde%2F100605-013-A&lang=de"
      = true
      /\ Embed_suitable
           "//www.arte.tv/player/v5/index.php?json_url=https%3A%2F%2Fapi.arte.tv%2Fapi%2Fplayer%2Fv2%2Fconfig%2Fde%2F100605-013-A&lang=de"
         = false
      /\ Embed_suitable
           ("http:" ++ "//www.arte.tv/player/v5/index.php?json_url=https%3A%2F%2Fapi.arte.tv%2Fapi%2Fplayer%2Fv2%2Fconfig%2Fde%2F100605-013-A&lang=de")
         = true
      /\ Embed_suitable
           ("https:" ++ "//www.arte.tv/player/v5/index.php?json_url=https%3A%2F%2Fapi.arte.tv%2Fapi%2Fplayer%2Fv2%2Fconfig%2Fde%2F100605-013-A&lang=de")
         = true).
Proof.
  apply (extracted_urls_are_players page_with_player).
  vm_compute. left. reflexivity.
Defined.
